(** * limpeza_dados: text normalisation and numeric coercion

    A shallow embedding of [src/limpeza_dados.py].  Python strings are
    sequences of Unicode code points, written here as lists of [Z].  The
    services the script takes from the Python runtime and from pandas
    (the Unicode character database, float parsing, rounding and
    formatting) are parameters of the development, collected in the
    records [Unicode] and [Numeric]; everything the script itself does is
    defined below, statement by statement. *)

From Stdlib Require Import String Ascii ZArith List Bool Lia.
Import ListNotations.
Local Open Scope Z_scope.

(** ** Strings *)

Definition str := list Z.

(** An ASCII literal as a Python string. *)
Definition lit (x : string) : str :=
  map (fun a => Z.of_N (N_of_ascii a)) (list_ascii_of_string x).

Definition str_eqb (a b : str) : bool :=
  if list_eq_dec Z.eq_dec a b then true else false.

Definition between (lo hi c : Z) : bool := (lo <=? c) && (c <=? hi).

Definition is_ascii (c : Z) : bool := between 0 127 c.
Definition is_09 (c : Z) : bool := between 48 57 c.
Definition is_az (c : Z) : bool := between 97 122 c.
Definition is_AZ (c : Z) : bool := between 65 90 c.
Definition is_letter (c : Z) : bool := is_az c || is_AZ c.
Definition is_xX (c : Z) : bool := (c =? 120) || (c =? 88).

(** The ASCII characters for which [str.isspace] holds: tab, newline,
    vertical tab, form feed, carriage return, the four separators
    0x1c-0x1f and the space. *)
Definition ascii_space (c : Z) : bool :=
  between 9 13 c || between 28 31 c || (c =? 32).

Fixpoint drop_while (p : Z -> bool) (s : str) : str :=
  match s with
  | [] => []
  | c :: r => if p c then drop_while p r else s
  end.

(** ** The Unicode character database

    [unicodedata.normalize('NFKD', _)], [unicodedata.category], the
    classes behind [\d] and [\s] of [re] and [str.lower] come from the
    Python runtime.  Their behaviour on ASCII is fixed here; beyond ASCII
    they are fields of the record. *)

Record Unicode := {
  NFKD : str -> str;
  category_Mn : Z -> bool;
  category_Nd : Z -> bool;
  White_Space : Z -> bool;
  lower : str -> str;
  NFKD_ascii : forall s, forallb is_ascii s = true -> NFKD s = s
}.

Section Text.

Variable U : Unicode.

(** [\d] of a [str] pattern: any decimal digit. *)
Definition is_digit (c : Z) : bool :=
  if is_ascii c then is_09 c else category_Nd U c.

(** [\s] of a [str] pattern, and what [str.strip] removes. *)
Definition is_space (c : Z) : bool :=
  if is_ascii c then ascii_space c else White_Space U c.

Definition is_Mn (c : Z) : bool :=
  if is_ascii c then false else category_Mn U c.

Definition strip (s : str) : str :=
  rev (drop_while is_space (rev (drop_while is_space s))).

(** ** [re.sub]

    A matcher tries the pattern at the start of its argument and returns
    the replacement text with what follows the match.  [re_sub] scans
    from the left, replaces each match and resumes after it; matches do
    not overlap.  No pattern of the script matches the empty string. *)

Definition matcher := str -> option (str * str).

Fixpoint re_sub_fuel (fuel : nat) (m : matcher) (s : str) : str :=
  match fuel with
  | O => s
  | S f =>
      match s with
      | [] => []
      | c :: r =>
          match m s with
          | Some (rep, rest) => rep ++ re_sub_fuel f m rest
          | None => c :: re_sub_fuel f m r
          end
      end
  end.

Definition re_sub (m : matcher) (s : str) : str :=
  re_sub_fuel (length s) m s.

(** [\s*] followed by the rest of a pattern [k]: the longest run of
    white space first, one character less on failure. *)
Fixpoint ws_star {A : Type} (k : str -> option A) (s : str) : option A :=
  match s with
  | [] => k []
  | c :: r =>
      if is_space c
      then match ws_star k r with
           | Some y => Some y
           | None => k s
           end
      else k s
  end.

(** [(\d),(\d)] replaced by [\1.\2]. *)
Definition m_virgula : matcher := fun s =>
  match s with
  | a :: c :: b :: rest =>
      if is_digit a && (c =? 44) && is_digit b
      then Some ([a; 46; b], rest) else None
  | _ => None
  end.

(** [[^...]+] replaced by the empty string, for the class [keep]. *)
Definition m_fora (keep : Z -> bool) : matcher := fun s =>
  match s with
  | c :: _ =>
      if keep c then None
      else Some ([], drop_while (fun d => negb (keep d)) s)
  | [] => None
  end.

(** [\s+] replaced by one space. *)
Definition m_espacos : matcher := fun s =>
  match s with
  | c :: _ => if is_space c then Some ([32], drop_while is_space s) else None
  | [] => None
  end.

(** [(P)(Q)] replaced by [\1 \2], for two character classes. *)
Definition m_par (p q : Z -> bool) : matcher := fun s =>
  match s with
  | a :: b :: rest => if p a && q b then Some ([a; 32; b], rest) else None
  | _ => None
  end.

(** [(\d)\s*[xX]\s*(\d)] replaced by [\1x\2]. *)
Definition m_nxm : matcher := fun s =>
  match s with
  | d :: r =>
      if is_digit d then
        ws_star (fun r1 =>
          match r1 with
          | x :: r2 =>
              if is_xX x then
                ws_star (fun r3 =>
                  match r3 with
                  | e :: r4 =>
                      if is_digit e then Some ([d; 120; e], r4) else None
                  | [] => None
                  end) r2
              else None
          | [] => None
          end) r
      else None
  | [] => None
  end.

(** [\s*_\s*] replaced by [_]. *)
Definition m_sublinhado : matcher :=
  ws_star (fun r1 =>
    match r1 with
    | c :: r2 =>
        if c =? 95 then Some ([95], drop_while is_space r2) else None
    | [] => None
    end).

Definition keep_preco (c : Z) : bool := is_09 c || (c =? 46) || (c =? 45).
Definition keep_tamanho (c : Z) : bool :=
  is_letter c || is_09 c || (c =? 95) || is_xX c || (c =? 32).
Definition keep_produto (c : Z) : bool := is_letter c || is_09 c || (c =? 32).
Definition keep_cliente (c : Z) : bool :=
  is_letter c || is_09 c || (c =? 95) || (c =? 32).

(** [re.fullmatch(r'.*_\d+[xX]\d+', texto)]: at each position either the
    tail [_\d+[xX]\d+] starts here and reaches the end of the text, or
    [.] takes the character, which it does for all but the newline. *)
Definition cauda_tamanho (r : str) : bool :=
  match r with
  | d :: r1 =>
      is_digit d &&
      match drop_while is_digit r1 with
      | x :: e :: r2 => is_xX x && is_digit e && forallb is_digit r2
      | _ => false
      end
  | [] => false
  end.

Fixpoint fullmatch_tamanho (s : str) : bool :=
  match s with
  | [] => false
  | c :: r =>
      ((c =? 95) && cauda_tamanho r) || (negb (c =? 10) && fullmatch_tamanho r)
  end.

(** ** corrigir_mojibake *)

Definition encode_latin1 (s : str) : option (list Z) :=
  if forallb (between 0 255) s then Some s else None.

Definition cont (b : Z) : bool := between 128 191 b.

(** Strict UTF-8: shortest forms only, no surrogates, nothing above
    U+10FFFF. *)
Fixpoint decode_utf8 (bs : list Z) : option str :=
  match bs with
  | [] => Some []
  | b1 :: r1 =>
      if between 0 127 b1 then option_map (cons b1) (decode_utf8 r1)
      else
        match r1 with
        | [] => None
        | b2 :: r2 =>
            if between 194 223 b1 then
              if cont b2
              then option_map (cons ((b1 - 192) * 64 + (b2 - 128)))
                              (decode_utf8 r2)
              else None
            else
              match r2 with
              | [] => None
              | b3 :: r3 =>
                  if between 224 239 b1 then
                    if (if b1 =? 224 then between 160 191 b2
                        else if b1 =? 237 then between 128 159 b2
                        else cont b2) && cont b3
                    then option_map
                           (cons ((b1 - 224) * 4096 + (b2 - 128) * 64
                                  + (b3 - 128)))
                           (decode_utf8 r3)
                    else None
                  else
                    match r3 with
                    | [] => None
                    | b4 :: r4 =>
                        if between 240 244 b1 then
                          if (if b1 =? 240 then between 144 191 b2
                              else if b1 =? 244 then between 128 143 b2
                              else cont b2) && cont b3 && cont b4
                          then option_map
                                 (cons ((b1 - 240) * 262144
                                        + (b2 - 128) * 4096
                                        + (b3 - 128) * 64 + (b4 - 128)))
                                 (decode_utf8 r4)
                          else None
                        else None
                    end
              end
        end
  end.

(** The character class of line 31: U+00C3, U+00C2 and U+0020. *)
Definition gatilho (c : Z) : bool := (c =? 195) || (c =? 194) || (c =? 32).

(** [texto.encode('latin1').decode('utf-8')]; [None] is the exception
    that the [except] clause catches. *)
Definition redecodificar (s : str) : option str :=
  match encode_latin1 s with
  | Some bs => decode_utf8 bs
  | None => None
  end.

Definition corrigir_mojibake_str (s : str) : str :=
  if existsb gatilho s then
    match redecodificar s with
    | Some t => t
    | None => s
    end
  else s.

(** ** remover_acentos *)

Definition remover_acentos_str (s : str) : str :=
  filter (fun c => negb (is_Mn c)) (NFKD U s).

(** ** limpar_texto, on the text that [str(valor)] yields *)

Inductive contexto := Produtos | Clientes.

Definition eh_preco (nome_coluna : option str) : bool :=
  match nome_coluna with
  | Some n =>
      match n with
      | [] => false
      | _ => str_eqb (lower U n) (lit "preco")
      end
  | None => false
  end.

Definition espacos_extras (s : str) : str := strip (re_sub m_espacos s).

Definition ramo_preco (t : str) : str :=
  strip (re_sub (m_fora keep_preco) t).

Definition ramo_tamanho (t : str) : str :=
  let t := re_sub (m_fora keep_tamanho) t in
  let t := espacos_extras t in
  re_sub m_nxm t.

Definition ramo_produto (t : str) : str :=
  let t := map (fun c => if c =? 95 then 32 else c) t in
  let t := re_sub (m_fora keep_produto) t in
  let t := espacos_extras t in
  let t := re_sub (m_par is_az is_AZ) t in
  let t := re_sub (m_par is_letter is_digit) t in
  let t := re_sub (m_par is_digit is_letter) t in
  let t := re_sub m_nxm t in
  strip t.

Definition ramo_cliente (t : str) : str :=
  let t := re_sub m_sublinhado t in
  let t := re_sub (m_fora keep_cliente) t in
  let t := espacos_extras t in
  let t := re_sub (m_par is_letter is_digit) t in
  let t := re_sub (m_par is_digit is_letter) t in
  let t := re_sub m_sublinhado t in
  strip t.

(** Lines 57 to 59: what every text goes through before the context is
    looked at. *)
Definition preparar (s : str) : str :=
  re_sub m_virgula (remover_acentos_str (corrigir_mojibake_str s)).

(** Lines 61 to 87: the rules of the context. *)
Definition ramo (ctx : contexto) (nome_coluna : option str) (texto : str)
  : str :=
  match ctx with
  | Produtos =>
      if eh_preco nome_coluna then ramo_preco texto
      else if fullmatch_tamanho texto then ramo_tamanho texto
      else ramo_produto texto
  | Clientes => ramo_cliente texto
  end.

Definition limpar_str (s : str) (ctx : contexto) (nome_coluna : option str)
  : str :=
  ramo ctx nome_coluna (preparar s).

(** A comma between two digits somewhere in the text. *)
Fixpoint virgula_entre_digitos (t : str) : bool :=
  match t with
  | a :: (c :: b :: _) as r =>
      (is_digit a && (c =? 44) && is_digit b) || virgula_entre_digitos r
  | _ => false
  end.

End Text.

(** ** pandas numbers

    [pd.to_numeric], [Series.round], the format [:.2f] and [str] of a
    number work on machine floats; the script only composes them.  A
    missing number (NaN) is [None]. *)

Record Numeric := {
  number : Type;
  py_str : number -> str;
  to_numeric : str -> option number;
  round2 : number -> number;
  format_2f : number -> str
}.

Section Tabular.

Variable U : Unicode.
Variable N : Numeric.

(** A cell: missing ([None], NaN: what [pd.isna] accepts), text, or a
    number. *)
Inductive value :=
| Null
| Text (s : str)
| Number (n : number N).

Definition corrigir_mojibake (texto : value) : value :=
  match texto with
  | Text s => Text (corrigir_mojibake_str s)
  | _ => texto
  end.

Definition remover_acentos (texto : value) : value :=
  match texto with
  | Text s => Text (remover_acentos_str U s)
  | _ => texto
  end.

Definition limpar_texto (valor : value) (ctx : contexto)
    (nome_coluna : option str) : value :=
  match valor with
  | Null => Null
  | Text s => Text (limpar_str U s ctx nome_coluna)
  | Number n => Text (limpar_str U (py_str N n) ctx nome_coluna)
  end.

(** ** Series and tables

    A column is either of dtype object (any mix of cells) or of a numeric
    dtype. *)
Inductive series :=
| Obj (cells : list value)
| Num (cells : list (option (number N))).

Definition table := list (str * series).

(** The cells of a column, whatever its dtype. *)
Definition celulas (col : series) : list value :=
  match col with
  | Obj cs => cs
  | Num xs => map (fun o => match o with
                            | Some n => Number n
                            | None => Null
                            end) xs
  end.

Definition linhas (col : series) : nat :=
  match col with
  | Obj cs => length cs
  | Num xs => length xs
  end.

(** [astype(str)] of one cell; a missing value becomes the text nan. *)
Definition astype_str (v : value) : str :=
  match v with
  | Null => lit "nan"
  | Text s => s
  | Number n => py_str N n
  end.

Definition serie_str (col : series) : list str :=
  match col with
  | Obj cs => map astype_str cs
  | Num xs => map (fun o => match o with
                            | Some n => py_str N n
                            | None => lit "nan"
                            end) xs
  end.

(** ** expandir_coluna_csv_embutido *)

(** [s.split(',', limit)]: [None] splits at every comma. *)
Fixpoint split_aux (limit : option nat) (cur : str) (s : str) : list str :=
  match s with
  | [] => [rev cur]
  | c :: r =>
      if c =? 44 then
        match limit with
        | None => rev cur :: split_aux None [] r
        | Some (S k) => rev cur :: split_aux (Some k) [] r
        | Some O => split_aux limit (c :: cur) r
        end
      else split_aux limit (c :: cur) r
  end.

Definition split (limit : option nat) (s : str) : list str :=
  split_aux limit [] s.

(** [','.join(campos)]. *)
Fixpoint join (campos : list str) : str :=
  match campos with
  | [] => []
  | a :: r =>
      match r with
      | [] => a
      | _ => a ++ 44 :: join r
      end
  end.

(** [Series.str.split(',', n=n)]: pandas reads [n = 0] as no limit. *)
Definition str_split (n : nat) (s : str) : list str :=
  split (match n with O => None | _ => Some n end) s.

Definition largura (rows : list (list str)) : nat :=
  fold_right (fun r w => Nat.max (length r) w) O rows.

(** [expand=True]: one column per field, short rows filled with missing
    values. *)
Definition campo (j : nat) (r : list str) : value :=
  match nth_error r j with
  | Some f => Text f
  | None => Null
  end.

Definition expand (rows : list (list str)) : list series :=
  map (fun j => Obj (map (campo j) rows)) (seq 0 (largura rows)).

Definition tem_virgula (s : str) : bool := existsb (fun c => c =? 44) s.

(** [dados.columns = nomes]: a length mismatch raises. *)
Definition set_columns (nomes : list str) (cols : list series)
  : option table :=
  if Nat.eqb (length nomes) (length cols) then Some (combine nomes cols)
  else None.

Definition strip_campo (v : value) : option str :=
  match v with
  | Text s => Some (strip U s)
  | _ => None
  end.

Fixpoint todos {A : Type} (l : list (option A)) : option (list A) :=
  match l with
  | [] => Some []
  | Some a :: r => option_map (cons a) (todos r)
  | None :: _ => None
  end.

Definition primeira (col : series) : option value :=
  match col with
  | Obj cs => hd_error cs
  | Num xs => option_map (fun o => match o with
                                   | Some n => Number n
                                   | None => Null
                                   end) (hd_error xs)
  end.

Definition sem_primeira (col : series) : series :=
  match col with
  | Obj cs => Obj (tl cs)
  | Num xs => Num (tl xs)
  end.

(** The result is [None] where the script raises. *)
Definition expandir_coluna_csv_embutido (df : table) : option table :=
  match df with
  | [(nome_col, col)] =>
      if tem_virgula nome_col then
        let cabecalho := map (strip U) (split None nome_col) in
        let dados :=
          expand (map (str_split (length cabecalho - 1)) (serie_str col)) in
        set_columns cabecalho dados
      else
        let primeiro :=
          match primeira col with
          | Some v => astype_str v
          | None => []
          end in
        if tem_virgula primeiro then
          let temp := expand (map (str_split 0) (serie_str col)) in
          let header := map primeira temp in
          if Nat.ltb 1 (length header) then
            match todos (map (fun h => match h with
                                       | Some v => strip_campo v
                                       | None => None
                                       end) header) with
            | Some nomes => set_columns nomes (map sem_primeira temp)
            | None => None
            end
          else Some df
        else Some df
  | _ => Some df
  end.

(** ** tentar_converter_numerico *)

Definition nome_preco (nome : str) : bool :=
  str_eqb (lower U nome) (lit "preco").

(** [$] holds at the end of the text and before a final newline. *)
Definition fim (r : str) : bool :=
  match r with
  | [] => true
  | [c] => c =? 10
  | _ => false
  end.

(** [re.match(r'^-?\d+(\.\d+)?$', s)]. *)
Definition padrao_numerico (s : str) : bool :=
  let s1 := match s with
            | c :: r => if c =? 45 then r else s
            | [] => s
            end in
  match s1 with
  | d :: r =>
      is_digit U d &&
      match drop_while (is_digit U) r with
      | c :: e :: r2 =>
          if (c =? 46) && is_digit U e
          then fim (drop_while (is_digit U) r2)
          else fim (c :: e :: r2)
      | r1 => fim r1
      end
  | [] => false
  end.

(** [.round(2).map(lambda x: f"{x:.2f}" if pd.notna(x) else "")]. *)
Definition formatar (o : option (number N)) : value :=
  match o with
  | Some x => Text (format_2f N (round2 N x))
  | None => Text []
  end.

(** [pd.to_numeric(_, errors='coerce')] of one cell. *)
Definition to_numeric_value (v : value) : option (number N) :=
  match v with
  | Null => None
  | Text s => to_numeric N s
  | Number n => Some n
  end.

Definition to_numeric_series (col : series) : list (option (number N)) :=
  match col with
  | Obj cs => map to_numeric_value cs
  | Num xs => xs
  end.

(** [col.dropna().astype(str).str.replace(',', '.')], kept in the row of
    each value. *)
Definition nao_nulo (v : value) : option str :=
  match v with
  | Null => None
  | _ => Some (map (fun c => if c =? 44 then 46 else c) (astype_str v))
  end.

Definition vazio (l : list (option str)) : bool :=
  forallb (fun o => match o with None => true | Some _ => false end) l.

Definition todos_numericos (l : list (option str)) : bool :=
  forallb (fun o => match o with
                    | None => true
                    | Some s => padrao_numerico s
                    end) l.

Definition tentar_converter_numerico (col : series) (ctx : contexto)
    (nome_coluna : str) : series :=
  match col with
  | Num xs =>
      match ctx with
      | Produtos =>
          if nome_preco nome_coluna then Obj (map formatar xs) else col
      | Clientes => col
      end
  | Obj cs =>
      let nao_nulos := map nao_nulo cs in
      if vazio nao_nulos then col
      else if todos_numericos nao_nulos then
        let col_num :=
          map (fun o => match o with
                        | Some s => to_numeric N s
                        | None => None
                        end) nao_nulos in
        match ctx with
        | Produtos =>
            if nome_preco nome_coluna then Obj (map formatar col_num)
            else Num col_num
        | Clientes => Num col_num
        end
      else col
  end.

(** ** processar_arquivo, between reading and writing the file *)

Definition novo_nome (ctx : contexto) (col : str) : str :=
  match limpar_str U col ctx (Some col) with
  | [] => col
  | nome_limpo => nome_limpo
  end.

Definition limpar_coluna (ctx : contexto) (coluna : str) (col : series)
  : series :=
  match col with
  | Obj cs => Obj (map (fun v => limpar_texto v ctx (Some coluna)) cs)
  | Num _ => col
  end.

(** Lines 188 to 190. *)
Definition formatar_preco (col : series) : series :=
  Obj (map formatar (to_numeric_series col)).

(** [df[nome_preco] = ...] for the first column whose lowered name is
    preco. *)
Fixpoint formatacao_final (df : table) : table :=
  match df with
  | [] => []
  | (c, col) :: r =>
      if nome_preco c then (c, formatar_preco col) :: r
      else (c, col) :: formatacao_final r
  end.

Fixpoint distintos (l : list str) : bool :=
  match l with
  | [] => true
  | a :: r => negb (existsb (str_eqb a) r) && distintos r
  end.

(** The three loops of lines 170 to 183. *)
Definition renomear (ctx : contexto) (df : table) : table :=
  map (fun '(c, col) => (novo_nome ctx c, col)) df.

Definition limpar_valores (ctx : contexto) (df : table) : table :=
  map (fun '(c, col) => (c, limpar_coluna ctx c col)) df.

Definition converter (ctx : contexto) (df : table) : table :=
  map (fun '(c, col) => (c, tentar_converter_numerico col ctx c)) df.

(** Columns are reached through their labels ([df[coluna]]), which
    selects one column only when the labels differ; [None] stands for a
    table whose cleaned labels collide. *)
Definition processar_tabela (ctx : contexto) (df : table) : option table :=
  let df := renomear ctx df in
  if distintos (map fst df) then
    let df := converter ctx (limpar_valores ctx df) in
    Some (match ctx with
          | Produtos => formatacao_final df
          | Clientes => df
          end)
  else None.

(** The first column whose lowered name is preco, as line 187 picks it. *)
Fixpoint coluna_preco (df : table) : option (str * series) :=
  match df with
  | [] => None
  | (c, col) :: r => if nome_preco c then Some (c, col) else coluna_preco r
  end.

End Tabular.

Arguments Null {N}.
Arguments Text {N} s.
Arguments Number {N} n.
Arguments Obj {N} cells.
Arguments Num {N} cells.
Arguments corrigir_mojibake {N} texto.
Arguments remover_acentos U {N} texto.
Arguments limpar_texto U {N} valor ctx nome_coluna.
Arguments celulas {N} col.
Arguments astype_str {N} v.
Arguments serie_str {N} col.
Arguments expand {N} rows.
Arguments campo {N} j r.
Arguments set_columns {N} nomes cols.
Arguments expandir_coluna_csv_embutido U {N} df.
Arguments formatar {N} o.
Arguments to_numeric_value {N} v.
Arguments to_numeric_series {N} col.
Arguments nao_nulo {N} v.
Arguments tentar_converter_numerico U {N} col ctx nome_coluna.
Arguments limpar_coluna U {N} ctx coluna col.
Arguments formatar_preco {N} col.
Arguments formatacao_final U {N} df.
Arguments renomear U {N} ctx df.
Arguments limpar_valores U {N} ctx df.
Arguments converter U {N} ctx df.
Arguments processar_tabela U {N} ctx df.
Arguments coluna_preco U {N} df.

(** ** Vocabulary for the shape of a text *)

(** Every pair of neighbours satisfies [R]. *)
Fixpoint pares (R : Z -> Z -> bool) (s : str) : bool :=
  match s with
  | a :: (b :: _) as r => R a b && pares R r
  | _ => true
  end.

(** Neither the first nor the last character is a space. *)
Definition aparado (s : str) : bool :=
  match s with
  | [] => true
  | c :: _ => negb (c =? 32) && negb (last s 0 =? 32)
  end.

(** The neighbours that the customer rules leave: no two spaces, no
    letter directly before or after a digit, no space next to an
    underscore. *)
Definition vizinhos_espaco (a b : Z) : bool :=
  negb ((a =? 32) && (b =? 32)).

Definition vizinhos_letra_digito (a b : Z) : bool :=
  vizinhos_espaco a b && negb (is_letter a && is_09 b).

Definition vizinhos_digito_letra (a b : Z) : bool :=
  vizinhos_letra_digito a b && negb (is_09 a && is_letter b).

Definition vizinhos_cliente (a b : Z) : bool :=
  vizinhos_digito_letra a b
  && negb ((a =? 32) && (b =? 95)) && negb ((a =? 95) && (b =? 32)).

(** The first character a scan with [m] writes. *)
Definition cabeca (m : matcher) (s : str) : option Z :=
  match m s with
  | Some (rep, _) => hd_error rep
  | None => hd_error s
  end.

(** ** An excerpt of the character database

    Enough of the Unicode tables to evaluate the definitions on examples:
    the accented letters of Portuguese with their decompositions, the
    combining diacritical marks, some non-ASCII digits and the non-ASCII
    white space. *)

Module Excerpt.

Definition decomp (c : Z) : str :=
  if is_ascii c then [c]
  else if c =? 160 then [32]
  else if c =? 189 then [49; 8260; 50]
  else if between 192 197 c then [65; 768 + (c - 192)]
  else if c =? 199 then [67; 807]
  else if between 200 202 c then [69; 768 + (c - 200)]
  else if between 204 206 c then [73; 768 + (c - 204)]
  else if between 210 213 c then [79; 768 + (c - 210)]
  else if between 217 219 c then [85; 768 + (c - 217)]
  else if between 224 229 c then [97; 768 + (c - 224)]
  else if c =? 231 then [99; 807]
  else if between 232 234 c then [101; 768 + (c - 232)]
  else if between 236 238 c then [105; 768 + (c - 236)]
  else if between 242 245 c then [111; 768 + (c - 242)]
  else if between 249 251 c then [117; 768 + (c - 249)]
  else if between 65296 65305 c then [c - 65248]
  else [c].

Definition nfkd (s : str) : str := flat_map decomp s.

Definition mn (c : Z) : bool := between 768 879 c.

Definition nd (c : Z) : bool :=
  between 1632 1641 c || between 1776 1785 c || between 2406 2415 c
  || between 65296 65305 c.

Definition ws (c : Z) : bool :=
  (c =? 133) || (c =? 160) || (c =? 5760) || between 8192 8202 c
  || between 8232 8233 c || (c =? 8239) || (c =? 8287) || (c =? 12288).

Definition lower_char (c : Z) : Z :=
  if is_AZ c then c + 32
  else if between 192 222 c && negb (c =? 215) then c + 32
  else c.

Lemma nfkd_ascii : forall s, forallb is_ascii s = true -> nfkd s = s.
Proof.
  induction s as [|c s IH]; simpl; intros H; [reflexivity|].
  apply andb_true_iff in H as [Hc Hs].
  unfold decomp; rewrite Hc; simpl. now rewrite (IH Hs).
Qed.

Definition ucd : Unicode :=
  {| NFKD := nfkd; category_Mn := mn; category_Nd := nd; White_Space := ws;
     lower := map lower_char; NFKD_ascii := nfkd_ascii |}.

End Excerpt.

(** ** Decimal numbers

    An instance of [Numeric] in exact decimal arithmetic: a number is
    [mant / 10 ^ casas].  It reads the plain decimal notation, rounds
    half to even and prints like [:.2f]; it agrees with the machine
    floats of pandas wherever those are exact to the digits shown.
    Signed zeros and exponents are not represented. *)

Module Decimal.

Record dec := { mant : Z; casas : nat }.

Definition val (ds : str) : Z :=
  fold_left (fun a d => a * 10 + (d - 48)) ds 0.

Fixpoint take_while (p : Z -> bool) (s : str) : str :=
  match s with
  | [] => []
  | c :: r => if p c then c :: take_while p r else []
  end.

Definition parse (s : str) : option dec :=
  let '(neg, r) :=
    match s with
    | c :: r => if c =? 45 then (true, r) else (false, s)
    | [] => (false, s)
    end in
  let sgn := fun m => if neg : bool then - m else m in
  let ip := take_while is_09 r in
  match drop_while is_09 r with
  | [] =>
      match ip with
      | [] => None
      | _ => Some {| mant := sgn (val ip); casas := 0 |}
      end
  | c :: fr =>
      if (c =? 46) && forallb is_09 fr
         && negb (Nat.eqb (length ip + length fr) 0)
      then Some {| mant := sgn (val (ip ++ fr)); casas := length fr |}
      else None
  end.

Definition round_half_even (x : dec) : dec :=
  let k := casas x in
  if Nat.leb k 2 then
    {| mant := mant x * 10 ^ Z.of_nat (2 - k); casas := 2 |}
  else
    let p := 10 ^ Z.of_nat (k - 2) in
    let q := mant x / p in
    let r := mant x mod p in
    {| mant := if 2 * r <? p then q
               else if p <? 2 * r then q + 1
               else if Z.even q then q else q + 1;
       casas := 2 |}.

Fixpoint print_fuel (f : nat) (n : Z) (acc : str) : str :=
  match f with
  | O => acc
  | S f' =>
      let acc' := (48 + n mod 10) :: acc in
      if n <? 10 then acc' else print_fuel f' (n / 10) acc'
  end.

Definition print_nat (n : Z) : str :=
  print_fuel (S (Z.to_nat (Z.log2 n))) n [].

(** The [k] low digits of [n]. *)
Fixpoint fixed (k : nat) (n : Z) (acc : str) : str :=
  match k with
  | O => acc
  | S k' => fixed k' (n / 10) ((48 + n mod 10) :: acc)
  end.

Definition sinal (m : Z) : str := if m <? 0 then [45] else [].

Definition print_2f (x : dec) : str :=
  let q := mant (round_half_even x) in
  sinal q ++ print_nat (Z.abs q / 100) ++ [46] ++ fixed 2 (Z.abs q mod 100) [].

(** [str] of a number: an integer without a point, otherwise at least
    one digit after it and no trailing zero beyond that. *)
Fixpoint encurtar (k : nat) (m : Z) : dec :=
  match k with
  | S (S k' as k1) =>
      if m mod 10 =? 0 then encurtar k1 (m / 10)
      else {| mant := m; casas := k |}
  | _ => {| mant := m; casas := k |}
  end.

Definition print_dec (x : dec) : str :=
  match casas x with
  | O => sinal (mant x) ++ print_nat (Z.abs (mant x))
  | k =>
      let y := encurtar k (mant x) in
      let p := 10 ^ Z.of_nat (casas y) in
      sinal (mant y) ++ print_nat (Z.abs (mant y) / p) ++ [46]
      ++ fixed (casas y) (Z.abs (mant y) mod p) []
  end.

Definition numeric : Numeric :=
  {| number := dec; py_str := print_dec; to_numeric := parse;
     round2 := round_half_even; format_2f := print_2f |}.

End Decimal.

(** * Properties *)

(** ** The scanner *)

Definition progressive (m : matcher) : Prop :=
  forall s rep rest, m s = Some (rep, rest) -> (length rest < length s)%nat.

Lemma re_sub_fuel_enough (m : matcher) :
  progressive m ->
  forall f1 f2 s, (length s <= f1)%nat -> (length s <= f2)%nat ->
  re_sub_fuel f1 m s = re_sub_fuel f2 m s.
Proof.
  intros Hm f1.
  induction f1 as [|f1 IH]; intros f2 s H1 H2.
  - destruct s; [|simpl in H1; lia]. now destruct f2.
  - destruct f2 as [|f2].
    + destruct s; [reflexivity|simpl in H2; lia].
    + destruct s as [|c r]; [reflexivity|].
      simpl in H1, H2. simpl.
      destruct (m (c :: r)) as [[rep rest]|] eqn:E.
      * apply Hm in E. simpl in E. f_equal. apply IH; lia.
      * f_equal. apply IH; lia.
Qed.

Lemma re_sub_nil (m : matcher) : re_sub m [] = [].
Proof. reflexivity. Qed.

Lemma re_sub_cons (m : matcher) (c : Z) (r : str) :
  progressive m ->
  re_sub m (c :: r) =
  match m (c :: r) with
  | Some (rep, rest) => rep ++ re_sub m rest
  | None => c :: re_sub m r
  end.
Proof.
  intros Hm. unfold re_sub. simpl.
  destruct (m (c :: r)) as [[rep rest]|] eqn:E.
  - apply Hm in E. simpl in E. f_equal.
    apply re_sub_fuel_enough; auto; lia.
  - reflexivity.
Qed.

Lemma drop_while_length (p : Z -> bool) (s : str) :
  (length (drop_while p s) <= length s)%nat.
Proof.
  induction s as [|c r IH]; simpl; [lia|].
  destruct (p c); simpl; lia.
Qed.

Lemma ws_star_suffix (U : Unicode) {A : Type} (k : str -> option A) :
  forall s y, ws_star U k s = Some y ->
  exists r, k r = Some y /\ (length r <= length s)%nat.
Proof.
  induction s as [|c r IH]; simpl; intros y H.
  - exists []. auto.
  - destruct (is_space U c).
    + destruct (ws_star U k r) as [z|] eqn:E.
      * inversion H; subst. destruct (IH y eq_refl) as (r' & Hk & Hl).
        exists r'. split; [assumption|lia].
      * exists (c :: r). auto.
    + exists (c :: r). auto.
Qed.

Lemma progressive_virgula U : progressive (m_virgula U).
Proof.
  intros [|a [|c [|b rest]]] rep r H; simpl in H; try discriminate.
  destruct (is_digit U a && (c =? 44) && is_digit U b); inversion H; subst.
  simpl. lia.
Qed.

Lemma progressive_fora keep : progressive (m_fora keep).
Proof.
  intros [|c s] rep r H; simpl in H; [discriminate|].
  destruct (keep c); [discriminate|]. simpl in H. inversion H; subst.
  pose proof (drop_while_length (fun d => negb (keep d)) s). simpl. lia.
Qed.

Lemma progressive_espacos U : progressive (m_espacos U).
Proof.
  intros [|c s] rep r H; simpl in H; [discriminate|].
  destruct (is_space U c); [|discriminate]. inversion H; subst.
  pose proof (drop_while_length (is_space U) s). simpl. lia.
Qed.

Lemma progressive_par p q : progressive (m_par p q).
Proof.
  intros [|a [|b rest]] rep r H; simpl in H; try discriminate.
  destruct (p a && q b); inversion H; subst. simpl. lia.
Qed.

Lemma progressive_nxm U : progressive (m_nxm U).
Proof.
  intros [|d s] rep r H; simpl in H; [discriminate|].
  destruct (is_digit U d); [|discriminate].
  apply ws_star_suffix in H as (r1 & H & L1).
  destruct r1 as [|x r2]; [discriminate|].
  destruct (is_xX x); [|discriminate].
  apply ws_star_suffix in H as (r3 & H & L3).
  destruct r3 as [|e r4]; [discriminate|].
  destruct (is_digit U e); [|discriminate].
  inversion H; subst. simpl in *. lia.
Qed.

Lemma progressive_sublinhado U : progressive (m_sublinhado U).
Proof.
  intros s rep r H. unfold m_sublinhado in H.
  apply ws_star_suffix in H as (r1 & H & L1).
  destruct r1 as [|c r2]; [discriminate|].
  destruct (c =? 95); [|discriminate].
  inversion H; subst.
  pose proof (drop_while_length (is_space U) r2). simpl in *. lia.
Qed.

Create HintDb scanner.

#[local] Hint Resolve progressive_virgula progressive_fora progressive_espacos
  progressive_par progressive_nxm progressive_sublinhado : scanner.

Lemma str_length_ind (P : str -> Prop) :
  (forall s, (forall r, (length r < length s)%nat -> P r) -> P s) ->
  forall s, P s.
Proof.
  intros H.
  assert (G : forall n s, (length s < n)%nat -> P s).
  { induction n as [|n IHn]; intros s L; [lia|].
    apply H. intros r Lr. apply IHn. lia. }
  intros s. apply (G (S (length s))). lia.
Qed.

(** Removing every run of characters outside a class keeps exactly the
    characters of the class. *)
Lemma re_sub_fora (keep : Z -> bool) (s : str) :
  re_sub (m_fora keep) s = filter keep s.
Proof.
  remember (length s) as n eqn:Hn.
  revert s Hn. induction n as [n IH] using lt_wf_ind. intros s Hn.
  destruct s as [|c r]; [reflexivity|].
  rewrite re_sub_cons by auto with scanner.
  simpl. destruct (keep c) eqn:Hc.
  - f_equal. apply (IH (length r)); simpl in Hn; lia.
  - simpl.
    pose proof (drop_while_length (fun d => negb (keep d)) r) as L.
    rewrite (IH (length (drop_while (fun d => negb (keep d)) r)))
      by (simpl in Hn; lia || reflexivity).
    clear. induction r as [|d r IHr]; [reflexivity|].
    simpl. destruct (keep d) eqn:E; simpl; rewrite ?E; auto.
Qed.

(** ** corrigir_mojibake *)

Lemma sem_gatilho (s : str) :
  (forall c, In c s -> c <> 195 /\ c <> 194 /\ c <> 32) ->
  existsb gatilho s = false.
Proof.
  induction s as [|a s IH]; intros H; [reflexivity|].
  simpl. rewrite IH by (intros c Hc; apply H; now right).
  destruct (H a (or_introl eq_refl)) as (H1 & H2 & H3).
  unfold gatilho.
  apply Z.eqb_neq in H1, H2, H3. now rewrite H1, H2, H3.
Qed.

Lemma com_gatilho (s : str) :
  (exists c, In c s /\ (c = 195 \/ c = 194 \/ c = 32)) ->
  existsb gatilho s = true.
Proof.
  intros (c & Hin & Hc). apply existsb_exists. exists c. split; [assumption|].
  unfold gatilho. destruct Hc as [->|[->| ->]]; reflexivity.
Qed.

(** C9, as amended.  The re-decoding is attempted exactly when the text
    holds U+00C3, U+00C2 or a space (U+0020): a text with none of the
    three is returned as it is; with one of them the result is the
    re-decoded text when Latin-1 encoding and UTF-8 decoding both
    succeed, and the text as it is when either raises.  The function is
    total: no exception leaves it. *)
Theorem corrigir_mojibake_gatilho (s : str) :
  ((forall c, In c s -> c <> 195 /\ c <> 194 /\ c <> 32) ->
   corrigir_mojibake_str s = s)
  /\ (redecodificar s = None -> corrigir_mojibake_str s = s)
  /\ (forall t, (exists c, In c s /\ (c = 195 \/ c = 194 \/ c = 32)) ->
      redecodificar s = Some t -> corrigir_mojibake_str s = t).
Proof.
  unfold corrigir_mojibake_str. repeat split.
  - intros H. now rewrite sem_gatilho.
  - intros ->. now destruct (existsb gatilho s).
  - intros t H ->. now rewrite com_gatilho.
Qed.

Lemma corrigir_mojibake_gatilho_witness :
  corrigir_mojibake_str [99; 97; 102; 233] = [99; 97; 102; 233]
  /\ corrigir_mojibake_str [195; 40] = [195; 40]
  /\ corrigir_mojibake_str [99; 97; 102; 195; 169] = [99; 97; 102; 233].
Proof.
  split; [|split].
  - apply (proj1 (corrigir_mojibake_gatilho [99; 97; 102; 233])).
    intros c Hc. simpl in Hc. lia.
  - apply (proj1 (proj2 (corrigir_mojibake_gatilho [195; 40]))). reflexivity.
  - apply (proj2 (proj2 (corrigir_mojibake_gatilho [99; 97; 102; 195; 169]))).
    + exists 195. simpl. lia.
    + reflexivity.
Defined.

(** C9 as stated fails: the text U+00C5 U+00A1 U+0020 x holds neither
    U+00C3 nor U+00C2 nor a replacement marker (U+FFFD, or its Latin-1
    reading U+00EF U+00BF U+00BD), and it is re-decoded all the same,
    because of the space. *)
Lemma corrigir_mojibake_espaco :
  ~ (forall s : str,
       (forall c, In c s -> ~ In c [195; 194; 65533; 239; 191; 189]) ->
       corrigir_mojibake_str s = s).
Proof.
  intros H. specialize (H [197; 161; 32; 120]).
  assert (E : corrigir_mojibake_str [197; 161; 32; 120] = [353; 32; 120])
    by reflexivity.
  rewrite E in H.
  assert (D : [353; 32; 120] <> [197; 161; 32; 120]) by discriminate.
  apply D, H. intros c Hc. simpl in *. lia.
Qed.

(** ** The decimal comma *)

Lemma is_digit_0 U : is_digit U 0 = false.
Proof. reflexivity. Qed.

Lemma is_digit_44 U : is_digit U 44 = false.
Proof. reflexivity. Qed.

Lemma m_virgula_some U (s rep rest : str) :
  m_virgula U s = Some (rep, rest) ->
  exists a b, s = a :: 44 :: b :: rest /\ rep = [a; 46; b]
              /\ is_digit U a = true /\ is_digit U b = true.
Proof.
  destruct s as [|a [|c [|b r]]]; simpl; try discriminate.
  destruct (is_digit U a) eqn:Ha; simpl; [|discriminate].
  destruct (c =? 44) eqn:Hc; simpl; [|discriminate].
  destruct (is_digit U b) eqn:Hb; [|discriminate].
  intros H. inversion H; subst. apply Z.eqb_eq in Hc. subst.
  exists a, b. auto.
Qed.

(** What one pass of [(\d),(\d)] does, position by position: the length
    is kept; only a comma between two digits changes, into a dot; and a
    comma between two digits stays only when the comma two places to its
    left was replaced, its left digit being the right digit of that
    match. *)
Lemma virgula_posicoes U (s : str) :
  let t := re_sub (m_virgula U) s in
  length t = length s
  /\ nth 0 t 0 = nth 0 s 0
  /\ (forall j, nth (S j) t 0 <> nth (S j) s 0 ->
        nth (S j) s 0 = 44 /\ nth (S j) t 0 = 46
        /\ is_digit U (nth j s 0) = true
        /\ is_digit U (nth (S (S j)) s 0) = true)
  /\ (forall j, is_digit U (nth j s 0) = true -> nth (S j) s 0 = 44 ->
        is_digit U (nth (S (S j)) s 0) = true -> nth (S j) t 0 = 44 ->
        exists k, j = S k /\ nth k s 0 = 44 /\ nth k t 0 = 46).
Proof.
  induction s as [s IH] using str_length_ind.
  destruct s as [|a r].
  - simpl. split; [reflexivity|]. split; [reflexivity|]. split.
    + intros [|j] H; now elim H.
    + intros [|j] H; simpl in H; discriminate.
  - cbv zeta. rewrite re_sub_cons by auto with scanner.
    destruct (m_virgula U (a :: r)) as [[rep rest]|] eqn:E.
    + apply m_virgula_some in E as (a' & b & Es & -> & Ha & Hb).
      inversion Es; subst a' r. clear Es.
      destruct (IH rest) as (L & Z0 & Ch & St); [simpl; lia|].
      simpl app. split; [|split; [|split]].
      * simpl. now rewrite L.
      * reflexivity.
      * intros [|[|[|j]]] H; simpl in H |- *.
        -- auto.
        -- now elim H.
        -- now elim H.
        -- apply Ch in H. exact H.
      * intros [|[|[|j]]] H1 H2 H3 H4; simpl in H1, H2, H3, H4 |- *.
        -- discriminate.
        -- subst b. rewrite is_digit_44 in Hb. discriminate.
        -- exists 1%nat. auto.
        -- destruct (St j H1 H2 H3 H4) as (k & -> & K1 & K2).
           exists (S (S (S k))). auto.
    + destruct (IH r) as (L & Z0 & Ch & St); [simpl; lia|].
      split; [|split; [|split]].
      * simpl. now rewrite L.
      * reflexivity.
      * intros [|j] H; simpl in H |- *.
        -- now elim H.
        -- apply Ch in H. exact H.
      * intros [|j] H1 H2 H3 H4; simpl in H1, H2, H3, H4 |- *.
        -- exfalso. destruct r as [|c [|b rest]]; simpl in H2, H3.
           ++ discriminate.
           ++ rewrite is_digit_0 in H3. discriminate.
           ++ simpl in E. subst c. rewrite H1, H3 in E. discriminate.
        -- destruct (St j H1 H2 H3 H4) as (k & -> & K1 & K2).
           exists (S k). auto.
Qed.

(** After a replaced comma the scan resumes behind the right digit of
    the match, so the character two places to the right of a replaced
    comma is never the comma of a match: it stays as it was. *)
Lemma virgula_apos_troca U (s : str) :
  let t := re_sub (m_virgula U) s in
  forall k, nth k s 0 = 44 -> nth k t 0 = 46 ->
            nth (S (S k)) t 0 = nth (S (S k)) s 0.
Proof.
  induction s as [s IH] using str_length_ind.
  destruct s as [|a r].
  - intros t [|k] H; simpl in H; discriminate.
  - cbv zeta. rewrite re_sub_cons by auto with scanner.
    destruct (m_virgula U (a :: r)) as [[rep rest]|] eqn:E.
    + apply m_virgula_some in E as (a' & b & Es & -> & Ha & Hb).
      inversion Es; subst a' r. clear Es.
      destruct (virgula_posicoes U rest) as (_ & Z0 & _).
      simpl app. intros [|[|[|k]]] H1 H2; simpl in H1, H2 |- *.
      * subst a. rewrite is_digit_44 in Ha. discriminate.
      * exact Z0.
      * subst b. rewrite is_digit_44 in Hb. discriminate.
      * apply (IH rest); [simpl; lia|assumption|assumption].
    + intros [|k] H1 H2; simpl in H1, H2 |- *.
      * rewrite H1 in H2. discriminate.
      * apply (IH r); [simpl; lia|assumption|assumption].
Qed.

(** C7, as amended.  In every context the substitution of
    digit-comma-digit by digit-dot-digit runs on the whole text before
    the rules of the context; it is one scan from the left over matches
    that do not overlap.  The length is kept and nothing changes but
    commas between two digits, which become dots.  A comma between two
    digits stays a comma only when the comma two places to its left was
    replaced, its left digit having closed that match; and after a
    replaced comma the character two places to its right is kept as it
    was, so that a comma standing there does stay (the second comma of
    1,2,3). *)
Theorem virgula_decimal_antes_do_contexto U (s : str) (ctx : contexto)
    (col : option str) :
  let s0 := remover_acentos_str U (corrigir_mojibake_str s) in
  let t := preparar U s in
  limpar_str U s ctx col = ramo U ctx col t
  /\ length t = length s0
  /\ nth 0 t 0 = nth 0 s0 0
  /\ (forall j, nth (S j) t 0 <> nth (S j) s0 0 ->
        nth (S j) s0 0 = 44 /\ nth (S j) t 0 = 46
        /\ is_digit U (nth j s0 0) = true
        /\ is_digit U (nth (S (S j)) s0 0) = true)
  /\ (forall j, is_digit U (nth j s0 0) = true -> nth (S j) s0 0 = 44 ->
        is_digit U (nth (S (S j)) s0 0) = true -> nth (S j) t 0 = 44 ->
        exists k, j = S k /\ nth k s0 0 = 44 /\ nth k t 0 = 46)
  /\ (forall k, nth k s0 0 = 44 -> nth k t 0 = 46 ->
        nth (S (S k)) t 0 = nth (S (S k)) s0 0).
Proof.
  intros s0 t. split; [reflexivity|].
  destruct (virgula_posicoes U s0) as (L & Z0 & Ch & St).
  split; [exact L|]. split; [exact Z0|]. split; [exact Ch|].
  split; [exact St|]. apply (virgula_apos_troca U s0).
Qed.

Lemma virgula_decimal_antes_do_contexto_witness :
  (exists k, 2%nat = S k /\ nth k (lit "1,2,3") 0 = 44
             /\ nth k (preparar Excerpt.ucd (lit "1,2,3")) 0 = 46)
  /\ nth 3 (preparar Excerpt.ucd (lit "1,2,3")) 0 = nth 3 (lit "1,2,3") 0.
Proof.
  destruct (virgula_decimal_antes_do_contexto Excerpt.ucd (lit "1,2,3")
              Produtos (Some (lit "preco"))) as (_ & _ & _ & _ & H & K).
  split.
  - apply (H 2%nat); reflexivity.
  - apply (K 1%nat); reflexivity.
Defined.

(** C7 as stated fails: in 1,2,3 the second comma stands between two
    digits and reaches the rules of the context as a comma; a price
    column then reads 1.23. *)
Lemma virgula_decimal_restante :
  preparar Excerpt.ucd (lit "1,2,3") = lit "1.2,3"
  /\ virgula_entre_digitos Excerpt.ucd (preparar Excerpt.ucd (lit "1,2,3"))
     = true
  /\ limpar_str Excerpt.ucd (lit "1,2,3") Produtos (Some (lit "preco"))
     = lit "1.23".
Proof. split; [|split]; reflexivity. Qed.

(** ** ASCII text is left alone by the first two steps *)

Lemma decode_utf8_ascii (s : str) :
  forallb is_ascii s = true -> decode_utf8 s = Some s.
Proof.
  induction s as [|c s IH]; [reflexivity|].
  simpl. intros H. apply andb_true_iff in H as [Hc Hs].
  unfold is_ascii in Hc. rewrite Hc, (IH Hs). reflexivity.
Qed.

Lemma encode_latin1_ascii (s : str) :
  forallb is_ascii s = true -> encode_latin1 s = Some s.
Proof.
  intros H. unfold encode_latin1.
  replace (forallb (between 0 255) s) with true; [reflexivity|].
  symmetry. apply forallb_forall. intros c Hc.
  rewrite forallb_forall in H. specialize (H c Hc).
  unfold is_ascii, between in *. lia.
Qed.

Lemma corrigir_mojibake_ascii (s : str) :
  forallb is_ascii s = true -> corrigir_mojibake_str s = s.
Proof.
  intros H. unfold corrigir_mojibake_str, redecodificar.
  rewrite (encode_latin1_ascii s H), (decode_utf8_ascii s H).
  now destruct (existsb gatilho s).
Qed.

Lemma remover_acentos_ascii U (s : str) :
  forallb is_ascii s = true -> remover_acentos_str U s = s.
Proof.
  intros H. unfold remover_acentos_str. rewrite (NFKD_ascii U s H).
  induction s as [|c s IH]; [reflexivity|].
  simpl in H |- *. apply andb_true_iff in H as [Hc Hs].
  unfold is_Mn at 1. rewrite Hc. simpl. now rewrite (IH Hs).
Qed.

Lemma drop_while_nenhum (p : Z -> bool) (s : str) :
  (forall c, In c s -> p c = false) -> drop_while p s = s.
Proof.
  destruct s as [|c s]; [reflexivity|].
  intros H. simpl. now rewrite (H c (or_introl eq_refl)).
Qed.

Lemma strip_sem_espaco U (s : str) :
  (forall c, In c s -> is_space U c = false) -> strip U s = s.
Proof.
  intros H. unfold strip. rewrite (drop_while_nenhum _ s H).
  rewrite drop_while_nenhum; [apply rev_involutive|].
  intros c Hc. apply H. now apply in_rev.
Qed.

Lemma keep_preco_nao_espaco U (c : Z) :
  keep_preco c = true -> is_space U c = false.
Proof.
  unfold keep_preco, is_space, is_ascii, is_09, ascii_space, between.
  intros H. destruct ((0 <=? c) && (c <=? 127)) eqn:E; lia.
Qed.

(** ** The price column *)

(** C6, as amended.  In the Products context, when the column name is
    not empty and its lower-case form is preco, the result is the text,
    after repair, accent stripping and the decimal-comma substitution,
    with every character other than digits, dot and hyphen removed;
    nothing is left for the trim to remove.  This holds for every text,
    size tokens included: the price path is tried first. *)
Theorem ramo_preco_primeiro U (s : str) (col : option str) :
  eh_preco U col = true ->
  limpar_str U s Produtos col = strip U (filter keep_preco (preparar U s))
  /\ strip U (filter keep_preco (preparar U s))
     = filter keep_preco (preparar U s).
Proof.
  intros H. unfold limpar_str, ramo, ramo_preco. rewrite H, re_sub_fora.
  split; [reflexivity|].
  apply strip_sem_espaco. intros c Hc. apply filter_In in Hc as [_ Hc].
  now apply keep_preco_nao_espaco.
Qed.

Lemma ramo_preco_primeiro_witness :
  limpar_str Excerpt.ucd (lit "caixa_10x20") Produtos (Some (lit "Preco"))
  = lit "1020".
Proof.
  destruct (ramo_preco_primeiro Excerpt.ucd (lit "caixa_10x20")
              (Some (lit "Preco")) eq_refl) as [H1 H2].
  rewrite H1, H2. reflexivity.
Defined.

(** C6 as stated fails twice.  The comma of 1,5 is not removed: it has
    become a dot before the price path runs.  And the name compared is
    preco: a column called price takes the general product path. *)
Lemma preco_nao_filtra_a_entrada :
  limpar_str Excerpt.ucd (lit "1,5") Produtos (Some (lit "preco"))
  <> strip Excerpt.ucd (filter keep_preco (lit "1,5"))
  /\ limpar_str Excerpt.ucd (lit "a-1") Produtos (Some (lit "price"))
     <> strip Excerpt.ucd (filter keep_preco (lit "a-1")).
Proof. split; vm_compute; discriminate. Qed.

(** ** Size tokens *)

(** C5, as amended.  In the Products context and outside the price
    column, caixa_10x20 is a size token and is returned as it is;
    caixa_10 X 20 is not one (the pattern allows no space around the x),
    so it takes the general product path, where the underscore becomes a
    space: the result is caixa 10x20. *)
Theorem tamanho_exemplos U (col : option str) :
  eh_preco U col = false ->
  limpar_str U (lit "caixa_10x20") Produtos col = lit "caixa_10x20"
  /\ limpar_str U (lit "caixa_10 X 20") Produtos col = lit "caixa 10x20".
Proof.
  intros H. unfold limpar_str, ramo, preparar. rewrite H.
  rewrite !corrigir_mojibake_ascii by reflexivity.
  rewrite !remover_acentos_ascii by reflexivity.
  split; vm_compute; reflexivity.
Qed.

Lemma tamanho_exemplos_witness :
  limpar_str Excerpt.ucd (lit "caixa_10x20") Produtos (Some (lit "tamanho"))
  = lit "caixa_10x20"
  /\ limpar_str Excerpt.ucd (lit "caixa_10 X 20") Produtos
       (Some (lit "tamanho"))
     = lit "caixa 10x20".
Proof.
  apply (tamanho_exemplos Excerpt.ucd (Some (lit "tamanho"))). reflexivity.
Defined.

(** C5 as stated fails on its second example: the underscore is not
    kept. *)
Lemma tamanho_com_espacos :
  limpar_str Excerpt.ucd (lit "caixa_10 X 20") Produtos
    (Some (lit "tamanho"))
  <> lit "caixa_10x20".
Proof. vm_compute. discriminate. Qed.

(** ** Values that are not text *)

(** C3, as amended.  [corrigir_mojibake] and [remover_acentos] return
    every value that is not text as it is.  [limpar_texto] returns a
    missing value as it is; a number it turns into its text, [str(valor)],
    and cleans that like any text, so the result is text. *)
Theorem nao_texto U N (v : value N) (ctx : contexto) (col : option str) :
  (forall s, v <> Text s) ->
  corrigir_mojibake v = v
  /\ remover_acentos U v = v
  /\ (v = Null -> limpar_texto U v ctx col = v)
  /\ (forall n, v = Number n ->
      limpar_texto U v ctx col = Text (limpar_str U (py_str N n) ctx col)).
Proof.
  intros H. destruct v as [|s|n].
  - repeat split; intros; discriminate || reflexivity.
  - now elim (H s).
  - split; [reflexivity|]. split; [reflexivity|]. split.
    + discriminate.
    + intros m E. inversion E; subst. reflexivity.
Qed.

Lemma nao_texto_witness :
  corrigir_mojibake (@Null Decimal.numeric) = Null
  /\ remover_acentos Excerpt.ucd (@Null Decimal.numeric) = Null
  /\ limpar_texto Excerpt.ucd (@Null Decimal.numeric) Clientes None = Null.
Proof.
  destruct (nao_texto Excerpt.ucd Decimal.numeric Null Clientes None)
    as (H1 & H2 & H3 & _).
  - intros s. discriminate.
  - split; [exact H1|]. split; [exact H2|]. exact (H3 eq_refl).
Defined.

(** C3 as stated fails for [limpar_texto] on a number: the number 5
    comes back as the text 5. *)
Lemma numero_vira_texto :
  limpar_texto Excerpt.ucd
    (@Number Decimal.numeric {| Decimal.mant := 5; Decimal.casas := 0 |})
    Clientes None
  <> @Number Decimal.numeric {| Decimal.mant := 5; Decimal.casas := 0 |}.
Proof. intros H. cbn [limpar_texto] in H. discriminate H. Qed.

(** ** Splitting at commas *)

Lemma split_aux_nao_vazio (limit : option nat) (cur s : str) :
  split_aux limit cur s <> [].
Proof.
  revert limit cur. induction s as [|c r IH]; intros limit cur; simpl.
  - discriminate.
  - destruct (c =? 44); [|apply IH].
    destruct limit as [[|k]|]; try discriminate. apply IH.
Qed.

Lemma join_cons (a : str) (l : list str) :
  l <> [] -> join (a :: l) = a ++ 44 :: join l.
Proof. destruct l; [now intros H; elim H|reflexivity]. Qed.

Lemma join_split_aux (limit : option nat) (cur s : str) :
  join (split_aux limit cur s) = rev cur ++ s.
Proof.
  revert limit cur. induction s as [|c r IH]; intros limit cur; simpl.
  - now rewrite app_nil_r.
  - assert (E : join (split_aux limit (c :: cur) r) = rev cur ++ c :: r).
    { rewrite IH. simpl. now rewrite <- app_assoc. }
    destruct (c =? 44) eqn:Hc; [|exact E].
    apply Z.eqb_eq in Hc. subst c.
    destruct limit as [[|k]|]; [exact E| |];
      rewrite join_cons by apply split_aux_nao_vazio;
      now rewrite IH.
Qed.

Lemma split_aux_length (k : nat) (cur s : str) :
  (1 <= length (split_aux (Some k) cur s) <= S k)%nat.
Proof.
  revert k cur. induction s as [|c r IH]; intros k cur; simpl.
  - lia.
  - destruct (c =? 44); [|apply IH].
    destruct k as [|k]; [apply IH|].
    simpl. specialize (IH k []). lia.
Qed.

Lemma tem_virgula_rev (s : str) : tem_virgula (rev s) = tem_virgula s.
Proof.
  unfold tem_virgula. induction s as [|c s IH]; [reflexivity|].
  simpl. rewrite existsb_app, IH. simpl.
  destruct (c =? 44), (existsb (fun c0 => c0 =? 44) s); reflexivity.
Qed.

Lemma split_aux_campos (k : nat) (cur s : str) :
  tem_virgula cur = false ->
  forall j f, (j < k)%nat ->
  nth_error (split_aux (Some k) cur s) j = Some f -> tem_virgula f = false.
Proof.
  revert k cur. induction s as [|c r IH]; intros k cur Hcur j f Hj; simpl.
  - destruct j as [|j]; simpl; [|destruct j; discriminate].
    intros E. inversion E; subst. now rewrite tem_virgula_rev.
  - destruct (c =? 44) eqn:Hc.
    + destruct k as [|k]; [lia|].
      destruct j as [|j]; simpl.
      * intros E. inversion E; subst. now rewrite tem_virgula_rev.
      * apply IH; [reflexivity|lia].
    + apply IH; [|assumption].
      unfold tem_virgula in *. simpl. now rewrite Hc.
Qed.

Lemma split_aux_dois (cur s : str) :
  tem_virgula s = true -> (2 <= length (split_aux None cur s))%nat.
Proof.
  revert cur. induction s as [|c r IH]; intros cur; simpl; [discriminate|].
  unfold tem_virgula. simpl. destruct (c =? 44); simpl.
  - intros _. pose proof (split_aux_nao_vazio None [] r) as H.
    destruct (split_aux None [] r); [now elim H|simpl; lia].
  - apply IH.
Qed.

(** ** expandir_coluna_csv_embutido *)

Lemma expand_length N (rows : list (list str)) :
  length (@expand N rows) = largura rows.
Proof. unfold expand. now rewrite length_map, length_seq. Qed.

(** X4.  For a table of one column whose name holds a comma, the name is
    cut at every comma into the header, each field trimmed, and every
    value into at most as many fields as the header has, by at most that
    number less one cuts: joining the fields of a row with commas gives
    the value back, and no field before the last header position holds a
    comma.  When some row fills every header position the script returns
    the rebuilt table, one column per header field, short rows filled
    with missing values. *)
Theorem expandir_por_cabecalho U N (nome : str) (col : series N) :
  tem_virgula nome = true ->
  let cabecalho := map (strip U) (split None nome) in
  let k := length cabecalho in
  let rows := map (str_split (k - 1)) (serie_str col) in
  largura rows = k ->
  expandir_coluna_csv_embutido U [(nome, col)]
  = Some (combine cabecalho
            (map (fun j => Obj (map (campo j) rows)) (seq 0 k)))
  /\ (2 <= k)%nat
  /\ map join rows = serie_str col
  /\ Forall (fun r =>
       (1 <= length r <= k)%nat
       /\ forall j f, (S j < k)%nat -> nth_error r j = Some f ->
                      tem_virgula f = false) rows.
Proof.
  intros Hv cabecalho k rows Hl.
  assert (K2 : (2 <= k)%nat).
  { unfold k, cabecalho. rewrite length_map. now apply split_aux_dois. }
  assert (Hs : str_split (k - 1) = split (Some (k - 1)%nat)).
  { unfold str_split. destruct (k - 1)%nat eqn:E; [lia|reflexivity]. }
  split; [|split; [assumption|split]].
  - unfold expandir_coluna_csv_embutido. rewrite Hv.
    fold cabecalho. fold k. fold rows.
    unfold set_columns. rewrite expand_length, Hl.
    fold k. rewrite Nat.eqb_refl. unfold expand. now rewrite Hl.
  - unfold rows. rewrite map_map, Hs.
    rewrite <- (map_id (serie_str col)) at 2.
    apply map_ext. intros s. unfold split. now rewrite join_split_aux.
  - unfold rows. rewrite Hs. apply Forall_forall. intros r Hr.
    apply in_map_iff in Hr as (s & <- & _). unfold split. split.
    + pose proof (split_aux_length (k - 1) [] s). lia.
    + intros j f Hj. apply split_aux_campos; [reflexivity|lia].
Qed.

Lemma expandir_por_cabecalho_witness :
  expandir_coluna_csv_embutido Excerpt.ucd
    [(lit "id,nome,preco", @Obj Decimal.numeric [Text (lit "1,Mesa,199.9")])]
  = Some [(lit "id", Obj [Text (lit "1")]);
          (lit "nome", Obj [Text (lit "Mesa")]);
          (lit "preco", Obj [Text (lit "199.9")])].
Proof.
  destruct (expandir_por_cabecalho Excerpt.ucd Decimal.numeric
              (lit "id,nome,preco") (Obj [Text (lit "1,Mesa,199.9")])
              eq_refl eq_refl) as [H _].
  rewrite H. reflexivity.
Defined.

(** ** The decimal instance reads back what it prints *)

Module DecimalFacts.
Import Decimal.

Lemma val_snoc (ds : str) (d : Z) : val (ds ++ [d]) = val ds * 10 + (d - 48).
Proof. unfold val. now rewrite fold_left_app. Qed.

Lemma print_fuel_S (f : nat) (n : Z) (acc : str) :
  print_fuel (S f) n acc =
  if n <? 10 then (48 + n mod 10) :: acc
  else print_fuel f (n / 10) ((48 + n mod 10) :: acc).
Proof. reflexivity. Qed.

Lemma fixed_2 (n : Z) : fixed 2 n [] = [48 + n / 10 mod 10; 48 + n mod 10].
Proof. reflexivity. Qed.

Lemma print_fuel_acc (f : nat) : forall n acc,
  print_fuel f n acc = print_fuel f n [] ++ acc.
Proof.
  induction f as [|f IH]; intros n acc; [reflexivity|].
  rewrite !print_fuel_S. destruct (n <? 10); [reflexivity|].
  rewrite (IH (n / 10) (_ :: acc)), (IH (n / 10) [_]).
  now rewrite <- app_assoc.
Qed.

Lemma val_print_fuel (f : nat) : forall n,
  0 <= n < 2 ^ Z.of_nat f -> val (print_fuel f n []) = n.
Proof.
  induction f as [|f IH]; intros n Hn.
  - simpl in *. assert (n = 0) by lia. now subst.
  - rewrite print_fuel_S. destruct (n <? 10) eqn:E.
    + apply Z.ltb_lt in E.
      change [48 + n mod 10] with ([] ++ [48 + n mod 10]).
      rewrite val_snoc. change (val []) with 0.
      rewrite Z.mod_small by lia. lia.
    + apply Z.ltb_ge in E.
      rewrite print_fuel_acc, val_snoc, IH.
      * pose proof (Z.div_mod n 10). lia.
      * rewrite Nat2Z.inj_succ, Z.pow_succ_r in Hn by lia.
        split; [apply Z.div_pos; lia|].
        apply Z.div_lt_upper_bound; lia.
Qed.

Lemma digitos_print_fuel (f : nat) : forall n,
  forallb is_09 (print_fuel f n []) = true.
Proof.
  induction f as [|f IH]; intros n; [reflexivity|].
  assert (D : is_09 (48 + n mod 10) = true).
  { pose proof (Z.mod_pos_bound n 10). unfold is_09, between. lia. }
  rewrite print_fuel_S. destruct (n <? 10).
  - cbn [forallb]. now rewrite D.
  - rewrite print_fuel_acc, forallb_app, IH. cbn [forallb]. now rewrite D.
Qed.

Lemma val_print_nat (n : Z) : 0 <= n -> val (print_nat n) = n.
Proof.
  intros Hn. unfold print_nat. apply val_print_fuel.
  rewrite Nat2Z.inj_succ, Z2Nat.id by apply Z.log2_nonneg.
  split; [assumption|].
  destruct (Z.eq_dec n 0) as [->|]; [reflexivity|].
  apply Z.log2_spec. lia.
Qed.

Lemma print_nat_cons (n : Z) :
  exists d r, print_nat n = d :: r /\ is_09 d = true.
Proof.
  pose proof (digitos_print_fuel (S (Z.to_nat (Z.log2 n))) n) as D.
  unfold print_nat. revert D.
  generalize (Z.to_nat (Z.log2 n)). intros f. rewrite print_fuel_S.
  destruct (n <? 10).
  - cbn [forallb]. intros D. apply andb_true_iff in D as [D _]. eauto.
  - rewrite print_fuel_acc.
    destruct (print_fuel f (n / 10) []) as [|d r]; cbn [forallb app];
      intros D; apply andb_true_iff in D as [D _]; eauto.
Qed.

Lemma take_while_digitos (ds rest : str) :
  forallb is_09 ds = true ->
  take_while is_09 (ds ++ 46 :: rest) = ds.
Proof.
  induction ds as [|d ds IH]; simpl; intros H; [reflexivity|].
  apply andb_true_iff in H as [Hd Hs]. now rewrite Hd, IH.
Qed.

Lemma drop_while_digitos (ds rest : str) :
  forallb is_09 ds = true ->
  drop_while is_09 (ds ++ 46 :: rest) = 46 :: rest.
Proof.
  induction ds as [|d ds IH]; simpl; intros H; [reflexivity|].
  apply andb_true_iff in H as [Hd Hs]. now rewrite Hd, IH.
Qed.

Lemma casas_round (x : dec) : casas (round_half_even x) = 2%nat.
Proof. unfold round_half_even. now destruct (Nat.leb (casas x) 2). Qed.

Lemma round_round (x : dec) :
  round_half_even (round_half_even x) = round_half_even x.
Proof.
  pose proof (casas_round x) as C.
  destruct (round_half_even x) as [m k]. simpl in C. subst k.
  unfold round_half_even. simpl. f_equal. lia.
Qed.

Lemma parse_sinal_digitos (neg : bool) (ds fr : str) :
  forallb is_09 ds = true -> forallb is_09 fr = true ->
  (exists d r, ds = d :: r) ->
  parse ((if neg then [45] else []) ++ ds ++ 46 :: fr)
  = Some {| mant := if neg then - (val (ds ++ fr)) else val (ds ++ fr);
            casas := length fr |}.
Proof.
  intros Hd Hf (d & r & E).
  assert (P : forall t, t = ds ++ 46 :: fr ->
            match drop_while is_09 t with
            | [] =>
                match take_while is_09 t with
                | [] => None
                | _ => Some {| mant := (if neg
                                        then - (val (take_while is_09 t))
                                        else val (take_while is_09 t));
                               casas := 0 |}
                end
            | c :: fr0 =>
                if (c =? 46) && forallb is_09 fr0
                   && negb (Nat.eqb (length (take_while is_09 t)
                                     + length fr0) 0)
                then Some {| mant := (if neg
                                      then - (val (take_while is_09 t ++ fr0))
                                      else val (take_while is_09 t ++ fr0));
                             casas := length fr0 |}
                else None
            end
            = Some {| mant := if neg then - (val (ds ++ fr))
                              else val (ds ++ fr);
                      casas := length fr |}).
  { intros t ->. rewrite take_while_digitos, drop_while_digitos by assumption.
    rewrite Z.eqb_refl, Hf. subst ds. reflexivity. }
  destruct neg.
  - unfold parse. cbn [app]. rewrite Z.eqb_refl. now apply P.
  - unfold parse. cbn [app]. subst ds. cbn [app].
    assert ((d =? 45) = false) as ->.
    { cbn [forallb] in Hd. apply andb_true_iff in Hd as [Hd _].
      unfold is_09, between in Hd. lia. }
    now apply (P (d :: r ++ 46 :: fr)).
Qed.

(** A printed price reads back as the rounded number. *)
Lemma parse_print_2f (x : dec) :
  parse (print_2f x) = Some (round_half_even x).
Proof.
  pose proof (casas_round x) as C.
  unfold print_2f.
  destruct (round_half_even x) as [q k]. simpl in C. subst k.
  cbn [mant]. set (a := Z.abs q).
  assert (Ha : 0 <= a) by apply Z.abs_nonneg.
  pose proof (Z.mod_pos_bound a 100) as B.
  pose proof (Z.mod_pos_bound (a mod 100) 10) as B1.
  assert (B2 : 0 <= a mod 100 / 10 < 10).
  { split; [apply Z.div_pos; lia|apply Z.div_lt_upper_bound; lia]. }
  assert (F : forallb is_09 (fixed 2 (a mod 100) []) = true).
  { rewrite fixed_2. cbn [forallb].
    rewrite (Z.mod_small (a mod 100 / 10)) by lia.
    unfold is_09, between. lia. }
  assert (V : val (print_nat (a / 100) ++ fixed 2 (a mod 100) []) = a).
  { rewrite fixed_2.
    change [48 + a mod 100 / 10 mod 10; 48 + a mod 100 mod 10]
      with ([48 + a mod 100 / 10 mod 10] ++ [48 + a mod 100 mod 10]).
    rewrite app_assoc, !val_snoc, val_print_nat
      by (apply Z.div_pos; lia).
    rewrite (Z.mod_small (a mod 100 / 10)) by lia.
    pose proof (Z.div_mod a 100). pose proof (Z.div_mod (a mod 100) 10).
    lia. }
  change ([46] ++ fixed 2 (a mod 100) []) with (46 :: fixed 2 (a mod 100) []).
  unfold sinal.
  etransitivity.
  - apply (parse_sinal_digitos (q <? 0) (print_nat (a / 100))
             (fixed 2 (a mod 100) [])).
    + apply digitos_print_fuel.
    + exact F.
    + destruct (print_nat_cons (a / 100)) as (d & r & E & _). eauto.
  - rewrite V, fixed_2. cbn [length]. f_equal. f_equal.
    destruct (q <? 0) eqn:Q; [apply Z.ltb_lt in Q|apply Z.ltb_ge in Q];
      unfold a; lia.
Qed.

Lemma print_2f_round (x : dec) : print_2f (round_half_even x) = print_2f x.
Proof. unfold print_2f. now rewrite round_round. Qed.

(** The two facts about reading and printing that the price column
    relies on, for the decimal instance. *)
Lemma vazio_nao_e_numero : to_numeric numeric [] = None.
Proof. reflexivity. Qed.

Lemma preco_relido (x : number numeric) :
  exists y, to_numeric numeric (format_2f numeric (round2 numeric x)) = Some y
            /\ format_2f numeric (round2 numeric y)
               = format_2f numeric (round2 numeric x).
Proof.
  exists (round_half_even (round_half_even x)). simpl. split.
  - apply parse_print_2f.
  - now rewrite !print_2f_round.
Qed.

End DecimalFacts.

(** ** tentar_converter_numerico *)

Section Coercion.

Variable U : Unicode.
Variable N : Numeric.

Lemma vazio_iff (cs : list (value N)) :
  vazio (map nao_nulo cs) = true <-> forall v, In v cs -> v = Null.
Proof.
  unfold vazio. rewrite forallb_forall. split.
  - intros H v Hv. specialize (H (nao_nulo v) (in_map _ _ _ Hv)).
    destruct v; [reflexivity|discriminate|discriminate].
  - intros H o Ho. apply in_map_iff in Ho as (v & <- & Hv).
    now rewrite (H v Hv).
Qed.

Lemma todos_numericos_iff (cs : list (value N)) :
  todos_numericos U (map nao_nulo cs) = true <->
  forall v s, In v cs -> nao_nulo v = Some s -> padrao_numerico U s = true.
Proof.
  unfold todos_numericos. rewrite forallb_forall. split.
  - intros H v s Hv E. specialize (H (nao_nulo v) (in_map _ _ _ Hv)).
    now rewrite E in H.
  - intros H o Ho. apply in_map_iff in Ho as (v & <- & Hv).
    destruct (nao_nulo v) as [s|] eqn:E; [|reflexivity]. now apply (H v).
Qed.

(** X5.  The coercion of a textual column is all or nothing.  With a
    non-null value whose text (commas turned into dots) fails the
    signed-decimal pattern, the column comes back exactly as it was; so
    does a column with no non-null value.  With at least one non-null
    value and all of them matching, every row is replaced in place: a
    null row by a missing value, any other row by what the number library
    reads from its text, which is a number or, where the library reads
    none, a missing value (the pattern is a test on the text and by itself
    says nothing of the library).  The result is a number column, except
    for the price column of Products, which becomes text: the 2-decimal
    format of each rounded number, the empty text for each missing value.
    When the library does read a number from the text of every non-null
    value, the rows that come back missing are exactly the rows that were
    null. *)
Theorem tudo_ou_nada (cs : list (value N)) (ctx : contexto) (nome : str) :
  let col_num :=
    map (fun v => match nao_nulo v with
                  | Some s => to_numeric N s
                  | None => None
                  end) cs in
  ((exists v s, In v cs /\ nao_nulo v = Some s
                /\ padrao_numerico U s = false) ->
   tentar_converter_numerico U (Obj cs) ctx nome = Obj cs)
  /\ ((forall v, In v cs -> v = Null) ->
      tentar_converter_numerico U (Obj cs) ctx nome = Obj cs)
  /\ ((exists v, In v cs /\ v <> Null) ->
      (forall v s, In v cs -> nao_nulo v = Some s ->
                   padrao_numerico U s = true) ->
      tentar_converter_numerico U (Obj cs) ctx nome
      = match ctx with
        | Produtos =>
            if nome_preco U nome then Obj (map formatar col_num)
            else Num col_num
        | Clientes => Num col_num
        end)
  /\ ((forall v s, In v cs -> nao_nulo v = Some s ->
                   to_numeric N s <> None) ->
      length col_num = length cs
      /\ forall i, nth i col_num None = None <-> nth i cs Null = Null).
Proof.
  intros col_num. unfold tentar_converter_numerico.
  split; [|split; [|split]].
  - intros (v & s & Hv & E & F).
    destruct (vazio (map nao_nulo cs)); [reflexivity|].
    destruct (todos_numericos U (map nao_nulo cs)) eqn:T; [|reflexivity].
    rewrite todos_numericos_iff in T. rewrite (T v s Hv E) in F.
    discriminate.
  - intros H. apply vazio_iff in H. now rewrite H.
  - intros (v & Hv & Hn) H.
    destruct (vazio (map nao_nulo cs)) eqn:V.
    + rewrite vazio_iff in V. elim Hn. now apply V.
    + apply todos_numericos_iff in H. rewrite H.
      rewrite (map_map nao_nulo
                 (fun o => match o with
                           | Some s => to_numeric N s
                           | None => None
                           end) cs).
      reflexivity.
  - intros H. split; [apply length_map|].
    subst col_num. induction cs as [|v r IH]; intros [|i]; cbn [map nth].
    + tauto.
    + tauto.
    + destruct (nao_nulo v) as [s|] eqn:E.
      * split.
        -- intros K. elim (H v s (or_introl eq_refl) E K).
        -- intros ->. discriminate.
      * destruct v; [tauto|discriminate|discriminate].
    + apply IH. intros w s Hw. apply H. now right.
Qed.

End Coercion.

Lemma tudo_ou_nada_witness :
  let n := fun m k => Some {| Decimal.mant := m; Decimal.casas := k |} in
  let cs := [Text (lit "1"); Null; Text (lit "2,5"); Text (lit "-3")] in
  tentar_converter_numerico Excerpt.ucd
    (@Obj Decimal.numeric [Text (lit "1"); Text (lit "2"); Text (lit "abc")])
    Clientes (lit "valor")
  = Obj [Text (lit "1"); Text (lit "2"); Text (lit "abc")]
  /\ tentar_converter_numerico Excerpt.ucd
       (@Obj Decimal.numeric [Null; Null]) Clientes (lit "valor")
     = Obj [Null; Null]
  /\ tentar_converter_numerico Excerpt.ucd
       (@Obj Decimal.numeric cs) Clientes (lit "valor")
     = @Num Decimal.numeric [n 1 0%nat; None; n 25 1%nat; n (-3) 0%nat]
  /\ (forall i,
        nth i [n 1 0%nat; None; n 25 1%nat; n (-3) 0%nat] None = None
        <-> nth i cs (@Null Decimal.numeric) = Null).
Proof.
  intros n cs. split; [|split; [|split]].
  - apply (proj1 (tudo_ou_nada Excerpt.ucd Decimal.numeric
                    [Text (lit "1"); Text (lit "2"); Text (lit "abc")]
                    Clientes (lit "valor"))).
    exists (Text (lit "abc")), (lit "abc"). simpl. auto.
  - apply (proj1 (proj2 (tudo_ou_nada Excerpt.ucd Decimal.numeric
                           [Null; Null] Clientes (lit "valor")))).
    simpl. intros v [<-|[<-|[]]]; reflexivity.
  - rewrite (proj1 (proj2 (proj2 (tudo_ou_nada Excerpt.ucd Decimal.numeric
                                    cs Clientes (lit "valor"))))).
    + reflexivity.
    + exists (Text (lit "1")). split; [simpl; auto|discriminate].
    + intros v s [<-|[<-|[<-|[<-|[]]]]] E; inversion E; reflexivity.
  - apply (proj2 (proj2 (proj2 (tudo_ou_nada Excerpt.ucd Decimal.numeric
                                  cs Clientes (lit "valor"))))).
    intros v s [<-|[<-|[<-|[<-|[]]]]] E; inversion E; discriminate.
Defined.

(** Two cases where every non-null value matches and no number column
    results: a column with no non-null value is returned as it was, and
    the price column of Products is turned into texts. *)
Lemma conversao_nem_sempre_numerica :
  tentar_converter_numerico Excerpt.ucd
    (@Obj Decimal.numeric [Null; Null]) Clientes (lit "valor")
  = Obj [Null; Null]
  /\ tentar_converter_numerico Excerpt.ucd
       (@Obj Decimal.numeric [Text (lit "1"); Text (lit "2.5");
                              Text (lit "-3")])
       Produtos (lit "preco")
     = Obj [Text (lit "1.00"); Text (lit "2.50"); Text (lit "-3.00")].
Proof. split; reflexivity. Qed.

(** ** The pipeline of processar_arquivo *)

Section Pipeline.

Variable U : Unicode.
Variable N : Numeric.

Lemma linhas_celulas (col : series N) : linhas N col = length (celulas col).
Proof. destruct col; simpl; [reflexivity|now rewrite length_map]. Qed.

Lemma to_numeric_series_celulas (col : series N) :
  to_numeric_series col = map to_numeric_value (celulas col).
Proof.
  destruct col as [cs|xs]; simpl; [reflexivity|].
  rewrite map_map. rewrite <- (map_id xs) at 1.
  apply map_ext. now intros [n|].
Qed.

Lemma linhas_limpar_coluna (ctx : contexto) (c : str) (col : series N) :
  linhas N (limpar_coluna U ctx c col) = linhas N col.
Proof. destruct col; simpl; [now rewrite length_map|reflexivity]. Qed.

Lemma linhas_tentar (col : series N) (ctx : contexto) (c : str) :
  linhas N (tentar_converter_numerico U col ctx c) = linhas N col.
Proof.
  destruct col as [cs|xs]; simpl.
  - destruct (vazio (map nao_nulo cs)); [reflexivity|].
    destruct (todos_numericos U (map nao_nulo cs)); [|reflexivity].
    destruct ctx; [destruct (nome_preco U c)|]; simpl;
      now rewrite ?length_map.
  - destruct ctx; [destruct (nome_preco U c)|]; simpl;
      now rewrite ?length_map.
Qed.

Lemma linhas_formatar_preco (col : series N) :
  linhas N (formatar_preco col) = linhas N col.
Proof.
  unfold formatar_preco. simpl.
  rewrite to_numeric_series_celulas, !length_map. symmetry.
  apply linhas_celulas.
Qed.

Definition forma (df : table N) : list nat :=
  map (fun x => linhas N (snd x)) df.

Lemma forma_formatacao_final (df : table N) :
  forma (formatacao_final U df) = forma df
  /\ map fst (formatacao_final U df) = map fst df.
Proof.
  induction df as [|[c col] r [IH1 IH2]]; [split; reflexivity|].
  cbn [formatacao_final]. unfold forma in *.
  destruct (nome_preco U c); cbn [map fst snd].
  - now rewrite linhas_formatar_preco.
  - now rewrite IH1, IH2.
Qed.

Lemma forma_colunas (f : str -> series N -> series N) (df : table N) :
  (forall c col, linhas N (f c col) = linhas N col) ->
  forma (map (fun '(c, col) => (c, f c col)) df) = forma df
  /\ map fst (map (fun '(c, col) => (c, f c col)) df) = map fst df.
Proof.
  intros H. induction df as [|[c col] r [IH1 IH2]]; [split; reflexivity|].
  unfold forma in *. cbn [map fst snd]. now rewrite H, IH1, IH2.
Qed.

(** X1.  When the cleaned column names differ, processing returns a table
    with the same number of columns, each with as many rows as it had:
    no row and no column is dropped or added.  The names are the cleaned
    names, a name that cleaning empties being kept as it was. *)
Theorem processar_tabela_forma (ctx : contexto) (df : table N) :
  distintos (map (novo_nome U ctx) (map fst df)) = true ->
  exists out,
    processar_tabela U ctx df = Some out
    /\ map fst out = map (novo_nome U ctx) (map fst df)
    /\ forma out = forma df.
Proof.
  intros H. unfold processar_tabela.
  assert (R : map fst (renomear U ctx df) = map (novo_nome U ctx) (map fst df)
              /\ forma (renomear U ctx df) = forma df).
  { unfold renomear. induction df as [|[c col] r IH]; [split; reflexivity|].
    cbn [map fst distintos] in H. apply andb_true_iff in H as [_ H].
    destruct (IH H) as [I1 I2]. unfold forma in *.
    cbn [map fst snd]. now rewrite I1, I2. }
  destruct R as [R1 R2]. rewrite R1, H.
  destruct (forma_colunas (limpar_coluna U ctx) (renomear U ctx df)
              (linhas_limpar_coluna ctx)) as [L1 L2].
  destruct (forma_colunas (fun c col => tentar_converter_numerico U col ctx c)
              (limpar_valores U ctx (renomear U ctx df))) as [C1 C2].
  { intros c col. apply linhas_tentar. }
  fold (limpar_valores U ctx (renomear U ctx df)) in L1, L2.
  fold (converter U ctx (limpar_valores U ctx (renomear U ctx df)))
    in C1, C2.
  eexists. split; [reflexivity|].
  destruct ctx.
  - destruct (forma_formatacao_final
                (converter U Produtos
                   (limpar_valores U Produtos (renomear U Produtos df))))
      as [F1 F2].
    rewrite F1, F2, C1, C2, L1, L2. auto.
  - rewrite C1, C2, L1, L2. auto.
Qed.

End Pipeline.

Lemma processar_tabela_forma_witness :
  exists out,
    processar_tabela Excerpt.ucd Produtos
      [(lit "Nome do Produto",
        @Obj Decimal.numeric [Text (lit "CorFosca"); Null]);
       (lit "preco", Obj [Text (lit "19,9"); Text (lit "x")])]
    = Some out
    /\ map fst out = [lit "Nome do Produto"; lit "preco"]
    /\ forma Decimal.numeric out = [2%nat; 2%nat].
Proof.
  apply (processar_tabela_forma Excerpt.ucd Decimal.numeric Produtos
           [(lit "Nome do Produto", Obj [Text (lit "CorFosca"); Null]);
            (lit "preco", Obj [Text (lit "19,9"); Text (lit "x")])]).
  reflexivity.
Defined.

(** ** The price column, from cleaning to the final pass *)

Section Preco.

Variable U : Unicode.
Variable N : Numeric.

Lemma limpar_str_preco (s : str) (col : option str) :
  eh_preco U col = true ->
  limpar_str U s Produtos col = filter keep_preco (preparar U s).
Proof.
  intros H. unfold limpar_str, ramo, ramo_preco. rewrite H, re_sub_fora.
  apply strip_sem_espaco. intros c Hc. apply filter_In in Hc as [_ Hc].
  now apply keep_preco_nao_espaco.
Qed.

Lemma sem_virgula_id (s : str) :
  (forall c, In c s -> keep_preco c = true) ->
  map (fun c => if c =? 44 then 46 else c) s = s.
Proof.
  intros H. rewrite <- (map_id s) at 2. apply map_ext_in.
  intros c Hc. specialize (H c Hc). destruct (c =? 44) eqn:E; [|reflexivity].
  apply Z.eqb_eq in E. subst c. discriminate.
Qed.

Lemma coluna_preco_nome (df : table N) (c : str) (col : series N) :
  coluna_preco U df = Some (c, col) -> nome_preco U c = true.
Proof.
  induction df as [|[c' col'] r IH]; simpl; [discriminate|].
  destruct (nome_preco U c') eqn:E; [|exact IH].
  intros H. inversion H; subst. exact E.
Qed.

Lemma coluna_preco_colunas (f : str -> series N -> series N)
    (df : table N) :
  coluna_preco U (map (fun '(c, col) => (c, f c col)) df)
  = option_map (fun '(c, col) => (c, f c col)) (coluna_preco U df).
Proof.
  induction df as [|[c col] r IH]; [reflexivity|].
  simpl. now destruct (nome_preco U c).
Qed.

Lemma coluna_preco_formatacao (df : table N) :
  coluna_preco U (formatacao_final U df)
  = option_map (fun '(c, col) => (c, formatar_preco col))
      (coluna_preco U df).
Proof.
  induction df as [|[c col] r IH]; [reflexivity|].
  simpl. destruct (nome_preco U c) eqn:E; simpl; now rewrite E.
Qed.

(** X2.  The final pass rewrites one column only: the first whose
    lower-cased name is preco.  The columns before and after it, later
    columns of that name included, are left as they are, and a table
    without such a column is returned unchanged.  In the rewritten
    column every cell is text: the 2-decimal format of the rounded
    number the cell parses to, and the empty text for a cell that is
    missing or does not parse. *)
Theorem formatacao_final_primeira (pre post : table N) (c : str)
    (col : series N) :
  ((forall x, In x pre -> nome_preco U (fst x) = false) ->
   nome_preco U c = true ->
   formatacao_final U (pre ++ (c, col) :: post)
   = pre ++ (c, formatar_preco col) :: post)
  /\ ((forall x, In x pre -> nome_preco U (fst x) = false) ->
      formatacao_final U pre = pre)
  /\ (forall i v, nth_error (celulas col) i = Some v ->
      nth_error (celulas (formatar_preco col)) i
      = Some (match to_numeric_value v with
              | Some x => Text (format_2f N (round2 N x))
              | None => Text []
              end)).
Proof.
  split; [|split].
  - intros H Hc. induction pre as [|[c' col'] r IH]; simpl.
    + now rewrite Hc.
    + pose proof (H (c', col') (or_introl eq_refl)) as E.
      simpl in E. rewrite E.
      rewrite IH; [reflexivity|]. intros x Hx. apply H. now right.
  - intros H. induction pre as [|[c' col'] r IH]; [reflexivity|].
    pose proof (H (c', col') (or_introl eq_refl)) as E.
    simpl in E |- *. rewrite E.
    rewrite IH; [reflexivity|]. intros x Hx. apply H. now right.
  - intros i v Hv. unfold formatar_preco. cbn [celulas].
    rewrite to_numeric_series_celulas, map_map.
    rewrite nth_error_map, Hv. reflexivity.
Qed.

Hypothesis vazio_nao_numero : to_numeric N [] = None.
Hypothesis preco_relido : forall x,
  exists y, to_numeric N (format_2f N (round2 N x)) = Some y
            /\ format_2f N (round2 N y) = format_2f N (round2 N x).

Lemma formatar_relido (o : option (number N)) :
  formatar (to_numeric_value (formatar o)) = formatar o.
Proof.
  destruct o as [x|]; simpl.
  - destruct (preco_relido x) as (y & E & F). rewrite E. simpl. now rewrite F.
  - now rewrite vazio_nao_numero.
Qed.

Lemma formatar_preco_formatados (l : list (option (number N))) :
  formatar_preco (Obj (map formatar l)) = Obj (map formatar l).
Proof.
  unfold formatar_preco. simpl. rewrite !map_map. f_equal.
  apply map_ext. intros o. apply formatar_relido.
Qed.

(** What the coercion step does to a cleaned price column makes no
    difference to what the final pass renders. *)
Lemma formatar_preco_tentar (c : str) (col : series N) :
  eh_preco U (Some c) = true ->
  formatar_preco
    (tentar_converter_numerico U (limpar_coluna U Produtos c col) Produtos c)
  = formatar_preco (limpar_coluna U Produtos c col).
Proof.
  intros Hc.
  assert (Hn : nome_preco U c = true).
  { unfold eh_preco in Hc. destruct c; [discriminate|exact Hc]. }
  destruct col as [cs|xs]; simpl; rewrite Hn.
  - set (cs' := map (fun v => limpar_texto U v Produtos (Some c)) cs).
    destruct (vazio (map nao_nulo cs')); [reflexivity|].
    destruct (todos_numericos U (map nao_nulo cs')); [|reflexivity].
    rewrite formatar_preco_formatados.
    unfold formatar_preco. simpl. rewrite !map_map. f_equal.
    unfold cs'. rewrite !map_map. apply map_ext. intros v.
    destruct v as [|s|n]; cbn [limpar_texto]; [reflexivity| |];
      cbn [nao_nulo astype_str to_numeric_value];
      rewrite limpar_str_preco by assumption;
      rewrite sem_virgula_id; try reflexivity;
      intros d Hd; now apply filter_In in Hd.
  - apply formatar_preco_formatados.
Qed.

(** X3.  In the Products context, take the first column whose cleaned
    name lower-cases to preco.  Whatever its dtype and whatever the
    coercion step did to it, its cells in the processed table are the
    final formatting of its cleaned cells: each is the 2-decimal text of
    the rounded number its cleaned value parses to, or the empty text
    when the value is missing or does not parse.  This relies on the
    number library reading back what it prints and reading the empty
    text as no number. *)
Theorem preco_final (df : table N) (c : str) (col : series N) :
  distintos (map fst (renomear U Produtos df)) = true ->
  coluna_preco U (renomear U Produtos df) = Some (c, col) ->
  c <> [] ->
  exists out,
    processar_tabela U Produtos df = Some out
    /\ coluna_preco U out
       = Some (c, Obj (map (fun v => formatar (to_numeric_value v))
                         (celulas (limpar_coluna U Produtos c col)))).
Proof.
  intros Hd Hp Hc. unfold processar_tabela. rewrite Hd.
  eexists. split; [reflexivity|].
  rewrite coluna_preco_formatacao. unfold converter, limpar_valores.
  rewrite (coluna_preco_colunas
             (fun c col => tentar_converter_numerico U col Produtos c)).
  rewrite (coluna_preco_colunas (limpar_coluna U Produtos)).
  rewrite Hp. simpl. f_equal. f_equal.
  rewrite formatar_preco_tentar.
  - unfold formatar_preco.
    now rewrite to_numeric_series_celulas, map_map.
  - pose proof (coluna_preco_nome _ _ _ Hp) as Hn.
    unfold eh_preco. destruct c; [now elim Hc|exact Hn].
Qed.

End Preco.

Lemma formatacao_final_primeira_witness :
  formatacao_final Excerpt.ucd
    ([(lit "nome", @Obj Decimal.numeric [Text (lit "mesa")])]
     ++ (lit "Preco", Obj [Text (lit "19.999")])
        :: [(lit "preco", Obj [Text (lit "1")])])
  = [(lit "nome", Obj [Text (lit "mesa")])]
    ++ (lit "Preco", Obj [Text (lit "20.00")])
       :: [(lit "preco", Obj [Text (lit "1")])].
Proof.
  rewrite (proj1 (formatacao_final_primeira Excerpt.ucd Decimal.numeric
                    [(lit "nome", Obj [Text (lit "mesa")])]
                    [(lit "preco", Obj [Text (lit "1")])]
                    (lit "Preco") (Obj [Text (lit "19.999")]))).
  - reflexivity.
  - intros x [<-|[]]. reflexivity.
  - reflexivity.
Defined.

Lemma preco_final_witness :
  exists out,
    processar_tabela Excerpt.ucd Produtos
      [(lit "Preco",
        @Obj Decimal.numeric
          [Text (lit "19,9"); Text (lit "19.999"); Text (lit "-3"); Null;
           Text (lit "R$ 7")])]
    = Some out
    /\ coluna_preco Excerpt.ucd out
       = Some (lit "Preco",
               Obj [Text (lit "19.90"); Text (lit "20.00");
                    Text (lit "-3.00"); Text []; Text (lit "7.00")]).
Proof.
  apply (preco_final Excerpt.ucd Decimal.numeric
           DecimalFacts.vazio_nao_e_numero DecimalFacts.preco_relido
           [(lit "Preco",
             Obj [Text (lit "19,9"); Text (lit "19.999"); Text (lit "-3");
                  Null; Text (lit "R$ 7")])]
           (lit "Preco")
           (Obj [Text (lit "19,9"); Text (lit "19.999"); Text (lit "-3");
                 Null; Text (lit "R$ 7")])).
  - reflexivity.
  - reflexivity.
  - discriminate.
Defined.

(** ** Scans and the shape of their result *)

Lemma pares_cons (R : Z -> Z -> bool) (a : Z) (s : str) :
  pares R (a :: s)
  = match hd_error s with
    | Some b => R a b && pares R s
    | None => true
    end.
Proof. destruct s; reflexivity. Qed.

Lemma pares_tail (R : Z -> Z -> bool) (a : Z) (s : str) :
  pares R (a :: s) = true -> pares R s = true.
Proof.
  rewrite pares_cons. destruct (hd_error s) eqn:E.
  - intros H. now apply andb_true_iff in H.
  - destruct s; [reflexivity|discriminate].
Qed.

Lemma pares_app (R : Z -> Z -> bool) (s t : str) :
  s <> [] ->
  pares R (s ++ t)
  = pares R s && pares R t
    && match hd_error t with
       | Some c => R (last s 0) c
       | None => true
       end.
Proof.
  induction s as [|a s IH]; [now intros H; elim H|]. intros _.
  destruct s as [|b s].
  - simpl app. rewrite pares_cons. destruct t as [|c t]; [reflexivity|].
    simpl. now rewrite andb_comm.
  - change ((a :: b :: s) ++ t) with (a :: (b :: s) ++ t).
    rewrite (pares_cons R a ((b :: s) ++ t)). simpl hd_error.
    rewrite IH by discriminate.
    change (pares R (a :: b :: s)) with (R a b && pares R (b :: s)).
    change (last (a :: b :: s) 0) with (last (b :: s) 0).
    now rewrite !andb_assoc.
Qed.

Lemma pares_app_l (R : Z -> Z -> bool) (s t : str) :
  pares R (s ++ t) = true -> pares R s = true.
Proof.
  destruct s as [|a s]; [reflexivity|].
  rewrite pares_app by discriminate. intros H.
  apply andb_true_iff in H as [H _]. now apply andb_true_iff in H.
Qed.

Lemma pares_app_r (R : Z -> Z -> bool) (s t : str) :
  pares R (s ++ t) = true -> pares R t = true.
Proof.
  induction s as [|a s IH]; [auto|]. intros H. apply IH.
  simpl app in H. now apply pares_tail in H.
Qed.

Lemma re_sub_forallb (K : Z -> bool) (m : matcher) :
  progressive m ->
  (forall s rep rest, forallb K s = true -> m s = Some (rep, rest) ->
     forallb K rep = true /\ forallb K rest = true) ->
  forall s : str, forallb K s = true -> forallb K (re_sub m s) = true.
Proof.
  intros Hp Hm s. induction s as [s IH] using str_length_ind. intros Hs.
  destruct s as [|c r]; [reflexivity|].
  rewrite re_sub_cons by assumption.
  destruct (m (c :: r)) as [[rep rest]|] eqn:E.
  - destruct (Hm _ _ _ Hs E) as [H1 H2]. rewrite forallb_app, H1.
    apply IH; [now apply Hp in E|assumption].
  - simpl in Hs |- *. apply andb_true_iff in Hs as [Hc Hr].
    rewrite Hc. apply IH; [simpl; lia|assumption].
Qed.

Lemma hd_re_sub (m : matcher) :
  progressive m ->
  (forall s rep rest, m s = Some (rep, rest) -> rep <> []) ->
  forall s, hd_error (re_sub m s) = cabeca m s.
Proof.
  intros Hp Hne [|c r]; unfold cabeca.
  - rewrite re_sub_nil.
    destruct (m []) as [[rep rest]|] eqn:E; [|reflexivity].
    apply Hp in E. simpl in E. lia.
  - rewrite re_sub_cons by assumption.
    destruct (m (c :: r)) as [[rep rest]|] eqn:E; [|reflexivity].
    apply Hne in E. destruct rep; [now elim E|reflexivity].
Qed.

(** The neighbours in the result of a scan: what a match writes must be
    well formed and fit the first character written after it, and a
    character copied as it is must fit the first character written after
    it. *)
Lemma pares_re_sub (R : Z -> Z -> bool) (I : str -> Prop) (m : matcher) :
  progressive m ->
  (forall s rep rest, m s = Some (rep, rest) -> rep <> []) ->
  (forall s rep rest, I s -> m s = Some (rep, rest) ->
     pares R rep = true /\ I rest
     /\ forall c, cabeca m rest = Some c -> R (last rep 0) c = true) ->
  (forall c r, I (c :: r) -> m (c :: r) = None ->
     I r /\ forall d, cabeca m r = Some d -> R c d = true) ->
  forall s, I s -> pares R (re_sub m s) = true.
Proof.
  intros Hp Hne Hm Hn s. induction s as [s IH] using str_length_ind.
  intros Hs. destruct s as [|c r]; [reflexivity|].
  rewrite re_sub_cons by assumption.
  destruct (m (c :: r)) as [[rep rest]|] eqn:E.
  - destruct (Hm _ _ _ Hs E) as (H1 & H2 & H3).
    rewrite pares_app by (eapply Hne; eassumption).
    rewrite H1, IH by (try assumption; now apply Hp in E).
    rewrite hd_re_sub by assumption.
    destruct (cabeca m rest) eqn:C; [now rewrite H3|reflexivity].
  - destruct (Hn _ _ Hs E) as (H1 & H2).
    rewrite pares_cons, hd_re_sub by assumption.
    destruct (cabeca m r) eqn:C; [|reflexivity].
    rewrite H2 by reflexivity. apply IH; [simpl; lia|assumption].
Qed.

(** A scan that only replaces text by itself changes nothing. *)
Lemma re_sub_fixo (I : str -> Prop) (m : matcher) :
  progressive m ->
  (forall c r, I (c :: r) ->
     I r /\ (m (c :: r) = None
             \/ exists rep rest, m (c :: r) = Some (rep, rest)
                                 /\ rep ++ rest = c :: r /\ I rest)) ->
  forall s, I s -> re_sub m s = s.
Proof.
  intros Hp H s. induction s as [s IH] using str_length_ind. intros Hs.
  destruct s as [|c r]; [reflexivity|].
  rewrite re_sub_cons by assumption.
  destruct (H c r Hs) as [Hr [E|(rep & rest & E & A & Hrest)]]; rewrite E.
  - f_equal. apply IH; [simpl; lia|assumption].
  - rewrite IH; [assumption| |assumption]. now apply Hp in E.
Qed.

(** ** Cleaning a price twice *)

Lemma re_sub_virgula_sem_virgula U (s : str) :
  forallb (fun c => negb (c =? 44)) s = true -> re_sub (m_virgula U) s = s.
Proof.
  apply (re_sub_fixo (fun t => forallb (fun c => negb (c =? 44)) t = true)).
  - apply progressive_virgula.
  - intros c r H. cbn [forallb] in H. apply andb_true_iff in H as [Hc Hr].
    split; [assumption|]. left.
    destruct r as [|d [|e r]]; try reflexivity.
    cbn [forallb] in Hr. apply andb_true_iff in Hr as [Hd _].
    unfold m_virgula. destruct (d =? 44); [discriminate|].
    now rewrite andb_false_r.
Qed.

Lemma keep_preco_forallb (s : str) :
  forallb keep_preco s = true ->
  forallb is_ascii s = true
  /\ forallb (fun c => negb (c =? 44)) s = true.
Proof.
  intros H. split; apply forallb_forall; intros c Hc;
    rewrite forallb_forall in H; specialize (H c Hc); revert H;
    unfold keep_preco, is_09, is_ascii, between; lia.
Qed.

Lemma forallb_filter_id (K : Z -> bool) (s : str) :
  forallb K s = true -> filter K s = s.
Proof.
  induction s as [|c s IH]; [reflexivity|].
  cbn [forallb filter]. intros H. apply andb_true_iff in H as [Hc Hs].
  now rewrite Hc, IH.
Qed.

Lemma forallb_filter (K : Z -> bool) (s : str) :
  forallb K (filter K s) = true.
Proof.
  apply forallb_forall. intros c Hc. now apply filter_In in Hc.
Qed.

(** X6.  In the Products context, the cleaned text of a price column
    holds nothing but digits, dots and hyphens, and cleaning it again
    changes nothing. *)
Theorem preco_idempotente U (s : str) (col : option str) :
  eh_preco U col = true ->
  forallb keep_preco (limpar_str U s Produtos col) = true
  /\ limpar_str U (limpar_str U s Produtos col) Produtos col
     = limpar_str U s Produtos col.
Proof.
  intros H. rewrite !limpar_str_preco by assumption.
  set (o := filter keep_preco (preparar U s)).
  assert (K : forallb keep_preco o = true) by apply forallb_filter.
  split; [assumption|].
  destruct (keep_preco_forallb o K) as [A V].
  unfold preparar.
  rewrite corrigir_mojibake_ascii, remover_acentos_ascii by assumption.
  rewrite re_sub_virgula_sem_virgula by assumption.
  now apply forallb_filter_id.
Qed.

Lemma preco_idempotente_witness :
  forallb keep_preco
    (limpar_str Excerpt.ucd (lit "R$ 1.234,50") Produtos (Some (lit "Preco")))
  = true
  /\ limpar_str Excerpt.ucd
       (limpar_str Excerpt.ucd (lit "R$ 1.234,50") Produtos
          (Some (lit "Preco")))
       Produtos (Some (lit "Preco"))
     = limpar_str Excerpt.ucd (lit "R$ 1.234,50") Produtos
         (Some (lit "Preco")).
Proof.
  apply (preco_idempotente Excerpt.ucd (lit "R$ 1.234,50")
           (Some (lit "Preco"))).
  reflexivity.
Defined.
